(** * OpStream retrieval engine: a shallow embedding of [backend/rag/engine.py]

    The development follows the Python class [RAGEngine] and the re-index
    flow of [backend/main.py].  Python dictionaries are finite maps from
    strings to dynamically typed values, similarity scores are rationals,
    and every method is a computation in a small state-and-exception monad
    over a [World]: the points held by the vector store, the number of
    identifiers drawn so far and the log of calls made to the three outside
    collaborators (embedding model, vector store, answer generator). *)

From Stdlib Require Import Ascii String QArith DecimalString.
From stdpp Require Import gmap strings list fin_maps.

Local Open Scope string_scope.

Set Warnings "-register-all".

(** ** Python values *)

(** The JSON-like values a payload can hold.  The document source emits
    integers, strings, booleans, [None] and lists of strings. *)
Inductive pyval : Type :=
| VNone
| VBool (b : bool)
| VInt (z : Z)
| VStr (s : string)
| VList (l : list pyval).

(** Python's [==] on these values: [bool] is a subclass of [int], so
    [True == 1]; lists compare element by element. *)
Fixpoint py_eqb (a b : pyval) {struct a} : bool :=
  match a, b with
  | VNone, VNone => true
  | VBool x, VBool y => Bool.eqb x y
  | VBool x, VInt y => Z.eqb (Z.b2z x) y
  | VInt x, VBool y => Z.eqb x (Z.b2z y)
  | VInt x, VInt y => Z.eqb x y
  | VStr x, VStr y => String.eqb x y
  | VList xs, VList ys =>
      (fix go (xs ys : list pyval) {struct xs} : bool :=
         match xs, ys with
         | [], [] => true
         | x :: xs', y :: ys' => py_eqb x y && go xs' ys'
         | _, _ => false
         end) xs ys
  | _, _ => false
  end.

(** Only lists are unhashable among these values. *)
Definition hashable (v : pyval) : bool :=
  match v with VList _ => false | _ => true end.

(** Truthiness of an [Optional[str]]: [None] and the empty string are
    falsy. *)
Definition truthy (o : option string) : bool :=
  match o with
  | Some s => negb (String.eqb s "")
  | None => false
  end.

(** [str.strip()]: the characters Python regards as white space, among the
    code points below 256. *)
Definition is_space (c : ascii) : bool :=
  let n := nat_of_ascii c in
  (((9 <=? n) && (n <=? 13)) || ((28 <=? n) && (n <=? 32))
   || (n =? 133) || (n =? 160))%nat.

Fixpoint lstrip (s : string) : string :=
  match s with
  | String c r => if is_space c then lstrip r else s
  | EmptyString => EmptyString
  end.

Fixpoint rstrip (s : string) : string :=
  match s with
  | String c r =>
      match rstrip r with
      | EmptyString => if is_space c then EmptyString else String c EmptyString
      | r' => String c r'
      end
  | EmptyString => EmptyString
  end.

Definition strip (s : string) : string := rstrip (lstrip s).

(** ** Data model *)

Abbreviation payload := (gmap string pyval).
Abbreviation vector := (list Q).
Abbreviation uid := N.

(** A document as handed to [index_documents]: ['content'] is read with
    [doc['content']], ['type'] and ['metadata'] with [doc.get]. *)
Record Document := {
  doc_content : string;
  doc_type : option string;
  doc_metadata : option payload
}.

(** [PointStruct(id, vector, payload)]. *)
Record Point := {
  point_id : uid;
  point_vector : vector;
  point_payload : payload
}.

(** A hit of the similarity search ([ScoredPoint]). *)
Record ScoredPoint := {
  hit_id : uid;
  hit_score : Q;
  hit_payload : payload
}.

(** [FieldCondition(key=k, match=MatchValue(value=v))] and
    [Filter(must=[...])]. *)
Record FieldCondition := {
  cond_key : string;
  cond_value : string
}.

Record Filter := { must : list FieldCondition }.

(** The dictionaries returned by [search]; [is_parent] is [None] when the
    key is absent. *)
Record SearchResult := {
  content : pyval;
  type : pyval;
  score : Q;
  metadata : payload;
  is_parent : option bool
}.

(** What [requests.post] and the decoding of its response can do. *)
Inductive http_outcome :=
| PostRaises
| Response (ok : bool) (answer : option string).

(** Calls that leave the engine. *)
Inductive Event :=
| EvEncode (text : string)
| EvEncodeBatch (texts : list string)
| EvPost (key prompt : string)
| EvSearch (v : vector) (f : option Filter) (limit : nat)
| EvUpsert (pts : list Point)
| EvDelete (f : Filter)
| EvScroll (limit : nat) (keys : list string).

Record World := {
  points : list Point;
  uuid_calls : nat;
  trace : list Event
}.

Definition empty_world : World :=
  {| points := []; uuid_calls := 0; trace := [] |}.

(** ** Exceptions and the monad *)

Inductive exn :=
| RequestException
| ResponseError
| TypeError
| ValueError
| HTTPException (status : nat).

Inductive result (A : Type) :=
| Ok (a : A)
| Raise (e : exn).
Arguments Ok {A} a.
Arguments Raise {A} e.

Definition M (A : Type) : Type := World -> result A * World.

Definition ret {A} (a : A) : M A := fun w => (Ok a, w).

Definition raise {A} (e : exn) : M A := fun w => (Raise e, w).

Definition bind {A B} (c : M A) (k : A -> M B) : M B :=
  fun w =>
    match c w with
    | (Ok a, w') => k a w'
    | (Raise e, w') => (Raise e, w')
    end.

(** [try: c except Exception: h]; what [c] did before raising stays done. *)
Definition try_except {A} (c : M A) (h : exn -> M A) : M A :=
  fun w =>
    match c w with
    | (Ok a, w') => (Ok a, w')
    | (Raise e, w') => h e w'
    end.

Notation "'let*' x ':=' c 'in' k" := (bind c (fun x => k))
  (at level 10, x pattern, c at level 100, k at level 200).

Definition emit (e : Event) : M unit :=
  fun w => (Ok tt, {| points := points w; uuid_calls := uuid_calls w;
                      trace := (trace w ++ [e])%list |}).

Definition get_points : M (list Point) := fun w => (Ok (points w), w).

Definition put_points (ps : list Point) : M unit :=
  fun w => (Ok tt, {| points := ps; uuid_calls := uuid_calls w;
                      trace := trace w |}).

(** ** The vector store *)

(** Modelled from the spec: the store is the external Qdrant service, of
    which the repository holds only the calls.  Section 4.2 gives its
    contract: a filter is an AND of equality constraints over payload
    fields. *)
Definition condition_holds (c : FieldCondition) (pl : payload) : bool :=
  match pl !! cond_key c with
  | Some (VStr s) => String.eqb s (cond_value c)
  | _ => false
  end.

Definition filter_holds (f : Filter) (pl : payload) : bool :=
  forallb (fun c => condition_holds c pl) (must f).

Definition selected (f : option Filter) (p : Point) : bool :=
  match f with
  | Some f => filter_holds f (point_payload p)
  | None => true
  end.

(** Modelled from the spec: results are sorted by descending score, ties
    keep insertion order (section 4.2). *)
Fixpoint insert_hit (h : ScoredPoint) (l : list ScoredPoint) : list ScoredPoint :=
  match l with
  | [] => [h]
  | x :: r =>
      if Qle_bool (hit_score x) (hit_score h) then h :: x :: r
      else x :: insert_hit h r
  end.

Fixpoint rank (l : list ScoredPoint) : list ScoredPoint :=
  match l with
  | [] => []
  | h :: r => insert_hit h (rank r)
  end.

(** Modelled from the spec: an upsert writes the point under its id, taking
    the place of a point that already has that id. *)
Fixpoint upsert_point (p : Point) (ps : list Point) : list Point :=
  match ps with
  | [] => [p]
  | q :: r =>
      if N.eqb (point_id q) (point_id p) then p :: r
      else q :: upsert_point p r
  end.

Definition upsert_points (new ps : list Point) : list Point :=
  fold_left (fun acc p => upsert_point p acc) new ps.

(** [with_payload=keys]: the payload cut down to the listed keys. *)
Definition restrict_payload (keys : list string) (pl : payload) : payload :=
  filter (fun kv => kv.1 ∈ keys) pl.

(** ** The engine *)

(** [self]: the two credentials read from the environment at start-up. *)
Record RAGEngine := {
  groq_key : option string;
  hf_token : option string
}.

Definition reserved_keys : list string := ["content"; "doc_type"; "repo_name"].

Definition nl : string := String (ascii_of_nat 10) EmptyString.

Section Engine.

(** The sentence-embedding model, the similarity the collection was
    created with ([Distance.COSINE]), the remote answer generator (given
    the bearer key and the prompt) and the stream of identifiers that
    [uuid.uuid4()] hands out. *)
Variable encode : string -> vector.
Variable similarity : vector -> vector -> Q.
Variable groq : string -> string -> http_outcome.
Variable uuid4 : nat -> uid.

Variable self : RAGEngine.

(** *** Calls to the collaborators *)

Definition embedder_encode (text : string) : M vector :=
  let* _ := emit (EvEncode text) in
  ret (encode text).

Definition embedder_encode_batch (texts : list string) : M (list vector) :=
  let* _ := emit (EvEncodeBatch texts) in
  ret (map encode texts).

Definition uuid_uuid4 : M uid :=
  fun w => (Ok (uuid4 (uuid_calls w)),
            {| points := points w; uuid_calls := S (uuid_calls w);
               trace := trace w |}).

(** [requests.post(...)]; a connection error or a timeout is raised. *)
Definition requests_post (key prompt : string) : M (bool * option string) :=
  let* _ := emit (EvPost key prompt) in
  match groq key prompt with
  | PostRaises => raise RequestException
  | Response ok answer => ret (ok, answer)
  end.

(** [response.json()["choices"][0]["message"]["content"]]; a body of
    another shape raises. *)
Definition response_content (answer : option string) : M string :=
  match answer with
  | Some a => ret a
  | None => raise ResponseError
  end.

Definition score_point (query_vector : vector) (p : Point) : ScoredPoint :=
  {| hit_id := point_id p;
     hit_score := similarity query_vector (point_vector p);
     hit_payload := point_payload p |}.

(** Modelled from the spec: [client.search] of the external store, per
    section 4.2: the points passing the filter, scored against the query
    vector, best first, at most [limit] of them. *)
Definition client_search (query_vector : vector) (query_filter : option Filter)
    (limit : nat) : M (list ScoredPoint) :=
  let* _ := emit (EvSearch query_vector query_filter limit) in
  let* ps := get_points in
  ret (firstn limit
         (rank (map (score_point query_vector)
                    (List.filter (selected query_filter) ps)))).

(** Modelled from the spec: [client.upsert] of the external store. *)
Definition client_upsert (pts : list Point) : M unit :=
  let* _ := emit (EvUpsert pts) in
  let* ps := get_points in
  put_points (upsert_points pts ps).

(** Modelled from the spec: [client.delete] of the external store, per
    section 4.2: every point matching the selector goes, and matching
    nothing is not an error. *)
Definition client_delete (points_selector : Filter) : M unit :=
  let* _ := emit (EvDelete points_selector) in
  let* ps := get_points in
  put_points (List.filter (fun p => negb (selected (Some points_selector) p)) ps).

(** Modelled from the spec: [client.scroll] of the external store, which
    enumerates points page by page.  This is the first page, at most
    [limit] points in the order the store enumerates them; the second
    component of the pair the client returns (the offset of the next page)
    is left out, the engine never reads it. *)
Definition client_scroll (limit : nat) (with_payload : list string)
    : M (list (uid * payload)) :=
  let* _ := emit (EvScroll limit with_payload) in
  let* ps := get_points in
  ret (map (fun p => (point_id p, restrict_payload with_payload (point_payload p)))
           (firstn limit ps)).

(** *** Methods of [RAGEngine] *)

Definition embed_text (text : string) : M vector := embedder_encode text.

Definition embed_batch (texts : list string) : M (list vector) :=
  embedder_encode_batch texts.

Definition hyde_prompt (query : string) : string :=
  "Given this question about a GitHub repository, write a short paragraph (2-3 sentences) that would be a good answer. Be specific and technical."
  +:+ nl +:+ nl +:+ "Question: " +:+ query +:+ nl +:+ nl +:+ "Answer:".

Definition _generate_hyde_document (query : string) : M string :=
  match groq_key self with
  | Some key =>
      if String.eqb key "" then ret query
      else
        try_except
          (let* response := requests_post key (hyde_prompt query) in
           if response.1 then
             let* answer := response_content response.2 in
             ret (strip answer)
           else ret query)
          (fun _ => ret query)
  | None => ret query
  end.

Definition make_payload (repo_name : string) (doc : Document) : payload :=
  default ∅ (doc_metadata doc)
  ∪ <["repo_name" := VStr repo_name]>
      (<["content" := VStr (doc_content doc)]>
         (<["doc_type" := VStr (default "unknown" (doc_type doc))]> ∅)).

(** The [for doc, embedding in zip(documents, embeddings)] loop. *)
Fixpoint make_points (repo_name : string) (pairs : list (Document * vector))
    : M (list Point) :=
  match pairs with
  | [] => ret []
  | (doc, embedding) :: rest =>
      let* point_id := uuid_uuid4 in
      let* tail := make_points repo_name rest in
      ret ({| point_id := point_id; point_vector := embedding;
              point_payload := make_payload repo_name doc |} :: tail)
  end.

Definition index_documents (repo_name : string) (documents : list Document)
    : M nat :=
  match documents with
  | [] => ret 0%nat
  | _ =>
      let texts := map doc_content documents in
      let* embeddings := embed_batch texts in
      let* pts := make_points repo_name (zip documents embeddings) in
      let* _ := client_upsert pts in
      ret (length pts)
  end.

Definition result_of_hit (hit : ScoredPoint) : SearchResult :=
  {| content := default (VStr "") (hit_payload hit !! "content");
     type := default (VStr "unknown") (hit_payload hit !! "doc_type");
     score := hit_score hit;
     metadata := filter (fun kv => kv.1 ∉ reserved_keys) (hit_payload hit);
     is_parent := None |}.

Definition search (query : string) (repo_name : option string) (top_k : nat)
    (doc_type : option string) (use_hyde : bool) : M (list SearchResult) :=
  let* search_text :=
    (if use_hyde && (20 <? String.length query)%nat
     then _generate_hyde_document query
     else ret query) in
  let* query_embedding := embed_text search_text in
  let filter_conditions :=
    ((if truthy repo_name
      then [ {| cond_key := "repo_name"; cond_value := default "" repo_name |} ]
      else [])
     ++ (if truthy doc_type
         then [ {| cond_key := "doc_type"; cond_value := default "" doc_type |} ]
         else []))%list in
  let search_filter :=
    match filter_conditions with
    | [] => None
    | _ => Some {| must := filter_conditions |}
    end in
  let* results := client_search query_embedding search_filter top_k in
  ret (map result_of_hit results).

(** [full_readme[0]['score'] = 0.5] and [full_readme[0]['is_parent'] = True]. *)
Definition mark_parent (r : SearchResult) : SearchResult :=
  {| content := content r; type := type r; score := 1 # 2;
     metadata := metadata r; is_parent := Some true |}.

Definition is_readme (r : SearchResult) : bool := py_eqb (type r) (VStr "readme").

Definition search_with_context (query repo_name : string) (top_k : nat)
    : M (list SearchResult) :=
  let* section_results := search query (Some repo_name) top_k None true in
  let has_readme_section := existsb is_readme section_results in
  if has_readme_section then
    let* full_readme :=
      search "full readme overview" (Some repo_name) 1 (Some "readme_full") false in
    match full_readme with
    | parent :: _ => ret (section_results ++ [mark_parent parent])%list
    | [] => ret section_results
    end
  else ret section_results.

Definition search_for_files (query repo_name : string) : M (list SearchResult) :=
  let* results := search query (Some repo_name) 1 (Some "file_tree") false in
  match results with
  | [] => search ("files directories " +:+ query) (Some repo_name) 2 None false
  | _ => ret results
  end.

Definition repo_filter (repo_name : string) : Filter :=
  {| must := [ {| cond_key := "repo_name"; cond_value := repo_name |} ] |}.

Definition delete_repo (repo_name : string) : M bool :=
  let* _ := client_delete (repo_filter repo_name) in
  ret true.

(** [repos.add(v)] on a set kept as a duplicate-free list. *)
Definition set_add (v : pyval) (repos : list pyval) : M (list pyval) :=
  if hashable v then
    ret (if existsb (py_eqb v) repos then repos else (repos ++ [v])%list)
  else raise TypeError.

Fixpoint collect_repos (records : list (uid * payload)) (repos : list pyval)
    : M (list pyval) :=
  match records with
  | [] => ret repos
  | point :: rest =>
      match point.2 !! "repo_name" with
      | Some v =>
          if negb (bool_decide (point.2 = ∅)) then
            let* repos' := set_add v repos in
            collect_repos rest repos'
          else collect_repos rest repos
      | None => collect_repos rest repos
      end
  end.

Definition get_indexed_repos : M (list pyval) :=
  let* results := client_scroll 1000 ["repo_name"] in
  collect_repos results [].

(** *** The re-index flow of [main.py]

    [index_repository] once [fetcher.fetch_all] has returned
    [data["repo_name"]] and [data["documents"]].  The handler wraps its
    body in [try ... except Exception], which turns every exception,
    the 400 it raises itself included, into a 500.  The guard in front of
    the [try] and the [except ValueError] clause, which an exception of
    [fetch_all] reaches, are in [index_repository_endpoint] below. *)
Definition index_repository (repo_name : string) (documents : list Document)
    : M nat :=
  try_except
    (let* _ :=
       (match documents with
        | [] => raise (HTTPException 400)
        | _ => ret tt
        end) in
     let* _ := delete_repo repo_name in
     index_documents repo_name documents)
    (fun _ => raise (HTTPException 500)).

(** What the call of [fetcher.fetch_all] did: it raised an exception,
    [ValueError] when [parse_repo_url] cannot read the URL, or it returned
    [data["repo_name"]] and [data["documents"]]. *)
Inductive fetch_outcome :=
| FetchRaised (e : exn)
| Fetched (repo_name : string) (documents : list Document).

Definition fetch_all (fetched : fetch_outcome) : M (string * list Document) :=
  match fetched with
  | FetchRaised e => raise e
  | Fetched repo_name documents => ret (repo_name, documents)
  end.

(** The whole handler.  [services] tells whether [rag_engine] and
    [fetcher] are both set.  The two [except] clauses are tried in order:
    [ValueError] first, then [Exception], which also takes the
    [HTTPException] the body raises for an empty list of documents. *)
Definition index_repository_endpoint (services : bool) (fetched : fetch_outcome)
    : M nat :=
  if negb services then raise (HTTPException 503)
  else
    try_except
      (let* data := fetch_all fetched in
       let repo_name := data.1 in
       let documents := data.2 in
       let* _ :=
         (match documents with
          | [] => raise (HTTPException 400)
          | _ => ret tt
          end) in
       let* _ := delete_repo repo_name in
       index_documents repo_name documents)
      (fun e =>
         match e with
         | ValueError => raise (HTTPException 400)
         | _ => raise (HTTPException 500)
         end).

End Engine.

(** * The document source: [backend/rag/fetcher.py]

    The README chunker and the part of [fetch_readme] that builds the
    documents handed to [index_documents].  A string is its sequence of
    characters, with code points below 256. *)

Set Warnings "-abstract-large-number".

(** ** Strings *)

Definition newline : ascii := ascii_of_nat 10.

Definition hash_sign : ascii := ascii_of_nat 35.

(** [s[n:]] and [s[:n]]. *)
Fixpoint str_drop (n : nat) (s : string) : string :=
  match n, s with
  | S n', String _ r => str_drop n' r
  | _, _ => s
  end.

Fixpoint str_take (n : nat) (s : string) : string :=
  match n, s with
  | S n', String c r => String c (str_take n' r)
  | _, _ => EmptyString
  end.

(** The number of leading characters of [s] that satisfy [P]. *)
Fixpoint leading (P : ascii -> bool) (s : string) : nat :=
  match s with
  | String c r => if P c then S (leading P r) else 0
  | EmptyString => 0
  end.

(** [s.split('\n')]: never empty, the empty string gives one empty line. *)
Fixpoint split_lines (s : string) : list string :=
  match s with
  | EmptyString => [EmptyString]
  | String c r =>
      if Ascii.eqb c newline then EmptyString :: split_lines r
      else match split_lines r with
           | line :: rest => String c line :: rest
           | [] => [String c EmptyString]
           end
  end.

(** ['\n'.join(lines)]. *)
Fixpoint join_lines (lines : list string) : string :=
  match lines with
  | [] => EmptyString
  | [line] => line
  | line :: rest => line +:+ String newline (join_lines rest)
  end.

(** ** The header pattern [^(#{1,6})\s+(.+)$]

    The matcher follows the pattern from left to right, each repetition
    taking as much as it can and giving characters back one at a time when
    what follows fails. *)

(** [(.+)$] at the end of the pattern: one or more characters other than a
    newline, up to the end of the string or to a newline that ends it.
    The result is group 2. *)
Definition dot_plus_end (s : string) : option string :=
  let n := leading (fun c => negb (Ascii.eqb c newline)) s in
  match n with
  | O => None
  | S _ =>
      match str_drop n s with
      | EmptyString => Some (str_take n s)
      | String _ EmptyString => Some (str_take n s)
      | _ => None
      end
  end.

(** [\s+] followed by the rest of the pattern: [j] white-space characters
    are tried first, then fewer, but at least one. *)
Fixpoint space_plus (j : nat) (s : string) : option string :=
  match j with
  | O => None
  | S j' =>
      match dot_plus_end (str_drop j s) with
      | Some g => Some g
      | None => space_plus j' s
      end
  end.

(** [(#{1,6})] followed by the rest of the pattern: [h] hashes are tried
    first, then fewer, but at least one.  The result is the length of
    group 1 and group 2. *)
Fixpoint hashes_then (h : nat) (line : string) : option (nat * string) :=
  match h with
  | O => None
  | S h' =>
      match space_plus (leading is_space (str_drop h line)) (str_drop h line) with
      | Some g => Some (h, g)
      | None => hashes_then h' line
      end
  end.

Definition header_match (line : string) : option (nat * string) :=
  hashes_then (Nat.min 6 (leading (Ascii.eqb hash_sign) line)) line.

(** ** [_chunk_readme_by_sections] *)

Record ReadmeSection := {
  sec_title : string;
  sec_level : nat;
  sec_content : string;
  sec_line_start : nat;
  sec_line_end : nat
}.

(** [current_section], whose ['content'] is still a list of lines. *)
Record CurrentSection := {
  cur_title : string;
  cur_level : nat;
  cur_lines : list string;
  cur_line_start : nat
}.

Definition close_section (cur : CurrentSection) (line_end : nat) : ReadmeSection :=
  {| sec_title := cur_title cur;
     sec_level := cur_level cur;
     sec_content := strip (join_lines (cur_lines cur));
     sec_line_start := cur_line_start cur;
     sec_line_end := line_end |}.

(** [sections.append(...)] under [if current_section['content']]. *)
Definition save_section (sections : list ReadmeSection) (cur : CurrentSection)
    (line_end : nat) : list ReadmeSection :=
  match cur_lines cur with
  | [] => sections
  | _ => (sections ++ [close_section cur line_end])%list
  end.

(** The loop [for i, line in enumerate(lines, 1)], from line number [i]. *)
Fixpoint chunk_loop (lines : list string) (i : nat) (sections : list ReadmeSection)
    (cur : CurrentSection) : list ReadmeSection * CurrentSection :=
  match lines with
  | [] => (sections, cur)
  | line :: rest =>
      match header_match line with
      | Some (level, group2) =>
          chunk_loop rest (S i) (save_section sections cur (i - 1))
            {| cur_title := strip group2; cur_level := level;
               cur_lines := [line]; cur_line_start := i |}
      | None =>
          chunk_loop rest (S i) sections
            {| cur_title := cur_title cur; cur_level := cur_level cur;
               cur_lines := (cur_lines cur ++ [line])%list;
               cur_line_start := cur_line_start cur |}
      end
  end.

Definition _chunk_readme_by_sections (content : string) : list ReadmeSection :=
  let lines := split_lines content in
  let '(sections, cur) :=
    chunk_loop lines 1 []
      {| cur_title := "Introduction"; cur_level := 0; cur_lines := [];
         cur_line_start := 1 |} in
  save_section sections cur (length lines).

(** ** [fetch_readme] *)

Definition section_document (filename : string) (section : ReadmeSection) : Document :=
  {| doc_content := sec_content section;
     doc_type := Some "readme";
     doc_metadata :=
       Some (<["filename" := VStr filename]>
               (<["section_title" := VStr (sec_title section)]>
                  (<["section_level" := VInt (Z.of_nat (sec_level section))]>
                     (<["line_start" := VInt (Z.of_nat (sec_line_start section))]>
                        (<["line_end" := VInt (Z.of_nat (sec_line_end section))]> ∅))))) |}.

Definition full_document (filename content : string) : Document :=
  {| doc_content := str_take 8000 content;
     doc_type := Some "readme_full";
     doc_metadata :=
       Some (<["filename" := VStr filename]>
               (<["section_title" := VStr "Full Document"]> ∅)) |}.

(** [fetch_readme], given what the GitHub client answered: the name of the
    README and its decoded text, or nothing when the client raised
    [GithubException]. *)
Definition fetch_readme (readme : option (string * string)) : list Document :=
  match readme with
  | Some (filename, content) =>
      let sections := _chunk_readme_by_sections content in
      (map (section_document filename)
           (List.filter (fun section => negb (String.length (sec_content section) <? 20)%nat)
                        sections)
       ++ [full_document filename content])%list
  | None => []
  end.

(** * A caller of [search]: [RepositoryAnalyzer.get_issue_details]

    [backend/rag/analyzer.py]; [self.rag] is the engine. *)


Section Analyzer.

Variable encode : string -> vector.
Variable similarity : vector -> vector -> Q.
Variable groq : string -> string -> http_outcome.
Variable rag : RAGEngine.



End Analyzer.

(** * Notions used in the statements *)

Definition add_trace (evs : list Event) (w : World) : World :=
  {| points := points w; uuid_calls := uuid_calls w;
     trace := (trace w ++ evs)%list |}.

(** The ranking is by descending score. *)
Inductive descending : list ScoredPoint -> Prop :=
| desc_nil : descending []
| desc_one h : descending [h]
| desc_cons h x l :
    (hit_score x <= hit_score h)%Q -> descending (x :: l) -> descending (h :: x :: l).

(** ** A concrete engine

    A two-dimensional embedder with unit vectors, so that the inner product
    is the cosine; an answer generator that is down; identifiers drawn in
    sequence. *)

Module Scenario.

(** Inner product; on unit vectors it is the cosine. *)
Definition dot (a b : vector) : Q :=
  fold_right Qplus 0%Q (map (fun p => (p.1 * p.2)%Q) (zip a b)).

Definition embedder (text : string) : vector :=
  if String.eqb text "Install via npm install" then [3 # 5; 4 # 5]%Q
  else if String.eqb text "Released under the MIT license" then [0; 1]%Q
  else if String.eqb text "Project overview" then [5 # 13; 12 # 13]%Q
  else [1; 0]%Q.

Definition generator_down (key prompt : string) : http_outcome := PostRaises.

Definition engine : RAGEngine := {| groq_key := Some "gsk-demo"; hf_token := None |}.

Definition uuid_of (n : nat) : uid := N.of_nat n.

Definition setup_section : Document :=
  {| doc_content := "Install via npm install"; doc_type := Some "readme";
     doc_metadata := Some {[ "section_title" := VStr "Setup" ]} |}.

Definition license_section : Document :=
  {| doc_content := "Released under the MIT license"; doc_type := Some "readme";
     doc_metadata := Some {[ "section_title" := VStr "License" ]} |}.

Definition full_readme : Document :=
  {| doc_content := "Project overview"; doc_type := Some "readme_full";
     doc_metadata := Some {[ "section_title" := VStr "Full Document" ]} |}.

Definition misfiled : Document :=
  {| doc_content := "Install via npm install"; doc_type := Some "readme";
     doc_metadata := Some {[ "repo_name" := VStr "other/repo" ]} |}.

Definition indexed (documents : list Document) : World :=
  (index_documents embedder uuid_of "x/y" documents empty_world).2.

Definition results_of (r : result (list SearchResult)) : list SearchResult :=
  match r with Ok l => l | Raise _ => [] end.

Definition repo_label (n : nat) : string :=
  "org/repo" +:+ NilEmpty.string_of_uint (Nat.to_uint n).

Definition setup_world : World := indexed [setup_section; full_readme].

Definition license_world : World := indexed [license_section; full_readme].

Definition setup_sec : list SearchResult :=
  results_of (search embedder dot generator_down engine
                "how do I install this" (Some "x/y") 1 None true setup_world).1.

Definition setup_out : list SearchResult :=
  results_of (search_with_context embedder dot generator_down engine
                "how do I install this" "x/y" 1 setup_world).1.

Definition setup_parent : SearchResult :=
  nth 1 setup_out
      {| content := VNone; type := VNone; score := 0; metadata := ∅;
         is_parent := None |}.

(** [x/y] indexed with two documents, then re-indexed with one. *)
Definition reindexed (documents : list Document) : result nat * World :=
  index_repository embedder uuid_of "x/y" documents license_world.

Fixpoint many_repos (n : nat) : World :=
  match n with
  | O => empty_world
  | S k =>
      (index_documents embedder uuid_of (repo_label k)
         [ {| doc_content := "About"; doc_type := Some "metadata";
              doc_metadata := None |} ] (many_repos k)).2
  end.

End Scenario.


(** ** More concrete inputs *)

Module Fixtures.

(** An answer generator that answers. *)
Definition generator_up (key prompt : string) : http_outcome :=
  Response true (Some "  Install via npm install  ").

Definition issue_12 : Document :=
  {| doc_content := "Issue #12: crash on start"; doc_type := Some "issue";
     doc_metadata :=
       Some (<["number" := VInt 12]> (<["title" := VStr "crash on start"]> ∅)) |}.

(** A document whose metadata puts a list under [repo_name]. *)
Definition listed : Document :=
  {| doc_content := "About"; doc_type := Some "metadata";
     doc_metadata := Some {[ "repo_name" := VList [VStr "a/b"; VStr "c/d"] ]} |}.

Definition readme_text : string :=
  "Welcome" +:+ nl +:+ "# Setup" +:+ nl
  +:+ "Install via npm install, then run the tests." +:+ nl
  +:+ "## Notes" +:+ nl +:+ "None yet.".

Definition plain_text : string := "no header here" +:+ nl +:+ "#nor here".

Definition issues_world : World :=
  (index_documents Scenario.embedder Scenario.uuid_of "x/y" [issue_12]
     Scenario.setup_world).2.

Definition listed_world : World :=
  (index_documents Scenario.embedder Scenario.uuid_of "x/y" [listed] empty_world).2.

Definition listed_point : Point :=
  nth 0 (points listed_world)
      {| point_id := 0%N; point_vector := []; point_payload := ∅ |}.

(** Two repositories side by side: the two README documents of [x/y] and
    one issue of [other/repo]. *)
Definition two_repos_world : World :=
  (index_documents Scenario.embedder Scenario.uuid_of "other/repo" [issue_12]
     Scenario.setup_world).2.

(** File trees.  [x/y] has an outdated tree and a current one; the tree of
    [other/repo] is the closest of the three to the query
    "where is the code". *)
Definition tree_embedder (text : string) : vector :=
  if String.eqb text "src/ tests/ README.md" then [3 # 5; 4 # 5]%Q
  else if String.eqb text "legacy/" then [0; 1]%Q
  else [1; 0]%Q.

Definition old_tree : Document :=
  {| doc_content := "legacy/"; doc_type := Some "file_tree";
     doc_metadata := Some {[ "file_count" := VInt 1 ]} |}.

Definition current_tree : Document :=
  {| doc_content := "src/ tests/ README.md"; doc_type := Some "file_tree";
     doc_metadata := Some {[ "file_count" := VInt 3 ]} |}.

Definition other_tree : Document :=
  {| doc_content := "lib/ docs/"; doc_type := Some "file_tree";
     doc_metadata := Some {[ "file_count" := VInt 2 ]} |}.

Definition trees_world : World :=
  (index_documents tree_embedder Scenario.uuid_of "other/repo" [other_tree]
     (index_documents tree_embedder Scenario.uuid_of "x/y"
        [old_tree; Scenario.setup_section; current_tree] empty_world).2).2.

Definition current_tree_point : Point :=
  nth 2 (points trees_world)
      {| point_id := 0%N; point_vector := []; point_payload := ∅ |}.

End Fixtures.

Section EngineFacts.

Variable encode : string -> vector.
Variable similarity : vector -> vector -> Q.
Variable groq : string -> string -> http_outcome.
Variable uuid4 : nat -> uid.
Variable self : RAGEngine.

(** The filter [search] builds from its two optional arguments. *)
Definition search_filter_of (repo_name doc_type : option string) : option Filter :=
  match
    ((if truthy repo_name
      then [ {| cond_key := "repo_name"; cond_value := default "" repo_name |} ]
      else [])
     ++ (if truthy doc_type
         then [ {| cond_key := "doc_type"; cond_value := default "" doc_type |} ]
         else []))%list
  with
  | [] => None
  | conds => Some {| must := conds |}
  end.

(** The hits the store returns for a query vector. *)
Definition hits_of (v : vector) (f : option Filter) (limit : nat) (ps : list Point)
    : list ScoredPoint :=
  firstn limit (rank (map (score_point similarity v) (List.filter (selected f) ps))).

(** The generator counts as failed when the credential is missing or
    empty, when the request raises (connection error, timeout), when the
    response is not OK, or when its body cannot be decoded. *)
Definition generator_fails (query : string) : bool :=
  match groq_key self with
  | Some key =>
      String.eqb key ""
      || match groq key (hyde_prompt query) with
         | PostRaises => true
         | Response ok answer => negb ok || negb (bool_decide (is_Some answer))
         end
  | None => true
  end.

(** What [_generate_hyde_document] returns and which calls it makes. *)
Definition hyde_text (query : string) : string :=
  match groq_key self with
  | Some key =>
      if String.eqb key "" then query
      else match groq key (hyde_prompt query) with
           | Response true (Some a) => strip a
           | _ => query
           end
  | None => query
  end.

Definition hyde_events (query : string) : list Event :=
  match groq_key self with
  | Some key =>
      if String.eqb key "" then [] else [EvPost key (hyde_prompt query)]
  | None => []
  end.

(** The text [search] embeds. *)
Definition search_text_of (query : string) (use_hyde : bool) : string :=
  if use_hyde && (20 <? String.length query)%nat then hyde_text query else query.

Definition search_events (query : string) (repo_name : option string) (top_k : nat)
    (doc_type : option string) (use_hyde : bool) : list Event :=
  ((if use_hyde && (20 <? String.length query)%nat then hyde_events query else [])
   ++ [EvEncode (search_text_of query use_hyde);
       EvSearch (encode (search_text_of query use_hyde))
                (search_filter_of repo_name doc_type) top_k])%list.

Definition embed_calls (evs : list Event) : nat :=
  length (List.filter (fun e => match e with
                                | EvEncode _ | EvEncodeBatch _ => true
                                | _ => false
                                end) evs).

Definition search_calls (evs : list Event) : nat :=
  length (List.filter (fun e => match e with EvSearch _ _ _ => true | _ => false end)
                      evs).

(** The section-level results and the parent look-up of
    [search_with_context]. *)
Definition section_results_of (query repo_name : string) (top_k : nat) (w : World)
    : list SearchResult :=
  map result_of_hit
      (hits_of (encode (search_text_of query true))
               (search_filter_of (Some repo_name) None) top_k (points w)).

Definition full_readme_of (repo_name : string) (w : World) : list SearchResult :=
  map result_of_hit
      (hits_of (encode "full readme overview")
               (search_filter_of (Some repo_name) (Some "readme_full")) 1 (points w)).

(** The stored points a search scoped to [repo_name] can reach. *)
Definition repo_points (repo_name : string) (w : World) : list Point :=
  List.filter (selected (Some (repo_filter repo_name))) (points w).

Definition other_points (repo_name : string) (ps : list Point) : list Point :=
  List.filter (fun p => negb (selected (Some (repo_filter repo_name)) p)) ps.

(** The points [index_documents] builds when [n] identifiers have been
    drawn before the call. *)
Fixpoint points_from (repo_name : string) (n : nat) (pairs : list (Document * vector))
    : list Point :=
  match pairs with
  | [] => []
  | (doc, embedding) :: rest =>
      {| point_id := uuid4 n; point_vector := embedding;
         point_payload := make_payload repo_name doc |}
      :: points_from repo_name (S n) rest
  end.

Definition new_points (repo_name : string) (n : nat) (documents : list Document)
    : list Point :=
  points_from repo_name n (zip documents (map encode (map doc_content documents))).

(** Every stored identifier was drawn from [uuid4] earlier. *)
Definition ids_drawn (w : World) : Prop :=
  forall p, In p (points w) -> exists i, (i < uuid_calls w)%nat /\ point_id p = uuid4 i.

(** [uuid4] never hands out the same identifier twice. *)
Definition never_reused : Prop := forall i j, uuid4 i = uuid4 j -> i = j.

(** The metadata of the document has no key named [repo_name]. *)
Definition plain_metadata (doc : Document) : Prop :=
  default ∅ (doc_metadata doc) !! "repo_name" = None.

(** The [repo_name] values of a list of points, in order. *)
Definition stored_names (ps : list Point) : list pyval :=
  omap (fun p => point_payload p !! "repo_name") ps.

(** What [repos.add(v)] does to the set, for a hashable [v]. *)
Definition add_name (repos : list pyval) (v : pyval) : list pyval :=
  if existsb (py_eqb v) repos then repos else (repos ++ [v])%list.

(** The records a scroll returns for the points [ps]. *)
Definition scroll_records (ps : list Point) : list (uid * payload) :=
  map (fun p => (point_id p, restrict_payload ["repo_name"] (point_payload p))) ps.

(** The results are ordered best first: a result never scores above one
    that precedes it. *)
Definition best_first (rs : list SearchResult) : Prop :=
  forall i j a b, (i <= j)%nat -> rs !! i = Some a -> rs !! j = Some b ->
                  (score b <= score a)%Q.

(** The requests sent to the answer generator. *)
Definition generator_calls (evs : list Event) : nat :=
  length (List.filter (fun e => match e with EvPost _ _ => true | _ => false end) evs).

(** The metadata of the document uses none of the three reserved keys. *)
Definition reserved_free (doc : Document) : Prop :=
  forall key, key ∈ reserved_keys -> default ∅ (doc_metadata doc) !! key = None.

(** Two worlds hold the same index: the same points and the same number of
    identifiers drawn. *)
Definition same_store (w w' : World) : Prop :=
  points w' = points w /\ uuid_calls w' = uuid_calls w.

(** No two stored points share an identifier. *)
Definition unique_ids (w : World) : Prop := NoDup (map point_id (points w)).


(** No name is listed twice, with Python's equality. *)
Definition distinct_names (names : list pyval) : Prop :=
  forall i j a b, i ≠ j -> names !! i = Some a -> names !! j = Some b ->
                  py_eqb a b = false.

(** The sections tile the lines from [first] on, without gap or overlap:
    each starts where the one before it ended, none is empty, and [next]
    is the line after the last. *)
Inductive covers : nat -> list ReadmeSection -> nat -> Prop :=
| covers_nil first : covers first [] first
| covers_cons first section rest next :
    sec_line_start section = first ->
    (first <= sec_line_end section)%nat ->
    covers (S (sec_line_end section)) rest next ->
    covers first (section :: rest) next.

(** The stored point is a file tree of the repository. *)
Definition file_tree_of (repo_name : string) (p : Point) : Prop :=
  point_payload p !! "repo_name" = Some (VStr repo_name)
  /\ point_payload p !! "doc_type" = Some (VStr "file_tree").

(** No character of the string is a newline. *)
Fixpoint no_newline (s : string) : bool :=
  match s with
  | String c r => negb (Ascii.eqb c newline) && no_newline r
  | EmptyString => true
  end.

(** * Properties *)

(** ** The store *)

Lemma add_trace_nil w : add_trace [] w = w.
Proof. destruct w; unfold add_trace; simpl. by rewrite app_nil_r. Qed.

Lemma add_trace_add e1 e2 w : add_trace e2 (add_trace e1 w) = add_trace (e1 ++ e2) w.
Proof. unfold add_trace; simpl. by rewrite app_assoc. Qed.

Lemma firstn_In {A} (x : A) n l : In x (firstn n l) -> In x l.
Proof.
  revert n. induction l as [|y l IH]; intros [|n]; simpl; try done.
  intros [->|Hin]; [by left | right; eauto].
Qed.

Lemma insert_hit_In h x l : In x (insert_hit h l) <-> x = h \/ In x l.
Proof.
  induction l as [|y l IH]; simpl.
  - intuition.
  - destruct (Qle_bool (hit_score y) (hit_score h)); simpl.
    + intuition.
    + rewrite IH. intuition.
Qed.

Lemma rank_In x l : In x (rank l) <-> In x l.
Proof.
  induction l as [|h l IH]; simpl; [done|].
  rewrite insert_hit_In, IH. intuition.
Qed.

Lemma insert_hit_length h l : length (insert_hit h l) = S (length l).
Proof.
  induction l as [|y l IH]; simpl; [done|].
  destruct (Qle_bool _ _); simpl; congruence.
Qed.

Lemma rank_length l : length (rank l) = length l.
Proof.
  induction l as [|h l IH]; simpl; [done|].
  by rewrite insert_hit_length, IH.
Qed.

Lemma insert_hit_descending h l : descending l -> descending (insert_hit h l).
Proof.
  induction 1 as [|x|x y l Hxy Hd IH]; simpl.
  - constructor.
  - destruct (Qle_bool (hit_score x) (hit_score h)) eqn:E.
    + constructor; [by apply Qle_bool_iff | constructor].
    + constructor; [|constructor].
      destruct (Qlt_le_dec (hit_score x) (hit_score h)) as [Hlt|Hle]; [|done].
      apply Qlt_le_weak, Qle_bool_iff in Hlt. congruence.
  - destruct (Qle_bool (hit_score x) (hit_score h)) eqn:E.
    + constructor; [by apply Qle_bool_iff | by constructor].
    + simpl in IH. destruct (Qle_bool (hit_score y) (hit_score h)) eqn:E'.
      * constructor; [|done].
        destruct (Qlt_le_dec (hit_score x) (hit_score h)) as [Hlt|Hle]; [|done].
        apply Qlt_le_weak, Qle_bool_iff in Hlt. congruence.
      * by constructor.
Qed.

Lemma rank_descending l : descending (rank l).
Proof.
  induction l as [|h l IH]; simpl; [constructor|].
  by apply insert_hit_descending.
Qed.

Lemma upsert_point_fresh p ps :
  Forall (fun q => point_id q ≠ point_id p) ps -> upsert_point p ps = (ps ++ [p])%list.
Proof.
  induction 1 as [|q ps Hq _ IH]; simpl; [done|].
  destruct (N.eqb_spec (point_id q) (point_id p)); [done|].
  by rewrite IH.
Qed.

Lemma upsert_points_fresh new ps :
  NoDup (map point_id new) ->
  Forall (fun q => point_id q ∉ map point_id new) ps ->
  upsert_points new ps = (ps ++ new)%list.
Proof.
  revert ps. induction new as [|p new IH]; intros ps Hnd Hps; simpl.
  - by rewrite app_nil_r.
  - simpl in Hnd. apply NoDup_cons in Hnd as [Hp Hnd].
    rewrite upsert_point_fresh.
    + rewrite IH; [by rewrite <- app_assoc | done |].
      apply Forall_app; split.
      * eapply Forall_impl; [exact Hps|]. simpl. intros q Hq Hin.
        apply Hq. by right.
      * constructor; [done | constructor].
    + eapply Forall_impl; [exact Hps|]. simpl. intros q Hq Heq.
      apply Hq. rewrite Heq. by left.
Qed.

Lemma filter_holds_repo r pl :
  filter_holds {| must := [ {| cond_key := "repo_name"; cond_value := r |} ] |} pl = true
  <-> pl !! "repo_name" = Some (VStr r).
Proof.
  unfold filter_holds, condition_holds; simpl. rewrite andb_true_r.
  destruct (pl !! "repo_name") as [[| | |s|]|]; try (split; [done | congruence]).
  split.
  - by intros ->%String.eqb_eq.
  - intros [= ->]. apply String.eqb_refl.
Qed.

Lemma generate_hyde_document_run query w :
  _generate_hyde_document groq self query w
  = (Ok (hyde_text query), add_trace (hyde_events query) w).
Proof.
  unfold _generate_hyde_document, hyde_text, hyde_events.
  destruct (groq_key self) as [key|]; [|by rewrite add_trace_nil].
  destruct (String.eqb key ""); [by rewrite add_trace_nil|].
  unfold try_except, bind, requests_post, emit; simpl.
  destruct (groq key (hyde_prompt query)) as [|[] [a|]]; reflexivity.
Qed.

Lemma hyde_text_fails query : generator_fails query = true -> hyde_text query = query.
Proof.
  unfold generator_fails, hyde_text.
  destruct (groq_key self) as [key|]; [|done].
  destruct (String.eqb key ""); [done|]. simpl.
  by destruct (groq key (hyde_prompt query)) as [|[] [a|]].
Qed.

Lemma search_run query repo_name top_k doc_type use_hyde w :
  search encode similarity groq self query repo_name top_k doc_type use_hyde w
  = (Ok (map result_of_hit
           (hits_of (encode (search_text_of query use_hyde))
                    (search_filter_of repo_name doc_type) top_k (points w))),
     add_trace (search_events query repo_name top_k doc_type use_hyde) w).
Proof.
  unfold search, search_events, search_text_of, search_filter_of, hits_of.
  unfold bind at 1.
  destruct (use_hyde && (20 <? String.length query)%nat).
  - rewrite generate_hyde_document_run.
    unfold bind, embed_text, embedder_encode, client_search, emit, get_points, ret;
      simpl.
    unfold add_trace; simpl. rewrite <- !app_assoc. simpl.
    by destruct (_ ++ _)%list.
  - unfold bind, embed_text, embedder_encode, client_search, emit, get_points, ret;
      simpl.
    unfold add_trace; simpl. rewrite <- !app_assoc. simpl.
    by destruct (_ ++ _)%list.
Qed.

Lemma hits_of_origin v f limit ps h :
  In h (hits_of v f limit ps) ->
  exists p, In p ps /\ selected f p = true /\ h = score_point similarity v p.
Proof.
  unfold hits_of. intros Hin.
  apply firstn_In in Hin. rewrite rank_In in Hin.
  apply in_map_iff in Hin as (p & <- & Hp).
  apply filter_In in Hp as [Hp Hsel]. eauto.
Qed.

Lemma hits_of_length v f limit ps : (length (hits_of v f limit ps) <= limit)%nat.
Proof. unfold hits_of. rewrite length_firstn. lia. Qed.

(** *** Ingestion *)

(** C10: indexing an empty list of documents returns 0 and leaves the
    world as it was: the stored points, the identifiers drawn and the log
    of outside calls (no embedding, no upsert) are all unchanged. *)
Theorem index_documents_empty repo_name w :
  index_documents encode uuid4 repo_name [] w = (Ok 0%nat, w).
Proof. reflexivity. Qed.

(** *** Query augmentation *)

Lemma hyde_events_calls query :
  embed_calls (hyde_events query) = 0%nat /\ search_calls (hyde_events query) = 0%nat.
Proof.
  unfold hyde_events. destruct (groq_key self) as [key|]; [|done].
  by destruct (String.eqb key "").
Qed.

(** C6: [search] runs the augmenter exactly when [use_hyde] is set and the
    query is longer than 20 characters; otherwise it embeds the query as
    given and the generator is not called.  Either way the call embeds
    one text and issues one similarity search, for that text. *)
Theorem search_single_path query repo_name top_k doc_type use_hyde w :
  exists text evs,
    (search encode similarity groq self query repo_name top_k doc_type use_hyde w).2
    = add_trace (evs ++ [EvEncode text;
                         EvSearch (encode text) (search_filter_of repo_name doc_type)
                                  top_k]) w
    /\ (if use_hyde && (20 <? String.length query)%nat
        then _generate_hyde_document groq self query w = (Ok text, add_trace evs w)
        else text = query /\ evs = [])
    /\ embed_calls (evs ++ [EvEncode text;
                            EvSearch (encode text)
                                     (search_filter_of repo_name doc_type) top_k]) = 1%nat
    /\ search_calls (evs ++ [EvEncode text;
                             EvSearch (encode text)
                                      (search_filter_of repo_name doc_type) top_k]) = 1%nat.
Proof.
  rewrite search_run. unfold search_events, search_text_of.
  destruct (use_hyde && (20 <? String.length query)%nat) eqn:E.
  - exists (hyde_text query), (hyde_events query).
    split; [done|]. split; [apply generate_hyde_document_run|].
    destruct (hyde_events_calls query) as [He Hs].
    unfold embed_calls, search_calls in *.
    rewrite !List.filter_app, !length_app, He, Hs. done.
  - exists query, []. done.
Qed.

(** C3: when the answer generator fails, a search with [use_hyde] set
    returns normally, with the very results of the same search run on the
    raw query, and the store is untouched. *)
Theorem search_hyde_fallback query repo_name top_k doc_type w :
  generator_fails query = true ->
  (search encode similarity groq self query repo_name top_k doc_type true w).1
  = (search encode similarity groq self query repo_name top_k doc_type false w).1
  /\ (exists results,
        (search encode similarity groq self query repo_name top_k doc_type true w).1
        = Ok results)
  /\ points (search encode similarity groq self query repo_name top_k doc_type true w).2
     = points w.
Proof.
  intros Hfail. rewrite !search_run. simpl.
  assert (search_text_of query true = search_text_of query false) as ->.
  { unfold search_text_of. simpl.
    destruct (20 <? String.length query)%nat; [|done].
    by apply hyde_text_fails. }
  eauto.
Qed.

(** *** Results of [search] *)

Lemma result_metadata_lookup h key :
  metadata (result_of_hit h) !! key
  = if bool_decide (key ∈ reserved_keys) then None else hit_payload h !! key.
Proof.
  unfold result_of_hit; simpl.
  destruct (hit_payload h !! key) as [v|] eqn:E.
  - case_bool_decide as Hk.
    + apply map_lookup_filter_None. right. intros v' Hv'. simpl. tauto.
    + apply map_lookup_filter_Some. done.
  - case_bool_decide; apply map_lookup_filter_None; by left.
Qed.

(** C7: every result of [search] is built from a stored point, and its
    metadata holds the stored payload without the keys [content],
    [doc_type] and [repo_name]: a reserved key is absent, any other key
    has its stored value (or is absent when the payload lacks it). *)
Theorem search_metadata_passthrough query repo_name top_k doc_type use_hyde w :
  exists hits,
    (search encode similarity groq self query repo_name top_k doc_type use_hyde w).1
    = Ok (map result_of_hit hits)
    /\ forall h, In h hits ->
         (exists p, In p (points w) /\ hit_payload h = point_payload p)
         /\ forall key,
             metadata (result_of_hit h) !! key
             = if bool_decide (key ∈ reserved_keys) then None
               else hit_payload h !! key.
Proof.
  rewrite search_run. eexists; split; [reflexivity|].
  intros h Hin. split; [|apply result_metadata_lookup].
  apply hits_of_origin in Hin as (p & Hp & _ & ->). eauto.
Qed.

Lemma search_filter_of_repo r doc_type p :
  r ≠ "" ->
  selected (search_filter_of (Some r) doc_type) p = true ->
  point_payload p !! "repo_name" = Some (VStr r).
Proof.
  intros Hr. unfold search_filter_of, truthy.
  destruct (String.eqb_spec r ""); [done|]. simpl.
  unfold selected, filter_holds. simpl. intros [Hc _]%andb_true_iff.
  apply filter_holds_repo. unfold filter_holds. simpl. by rewrite Hc.
Qed.

Lemma scoped_hit_repo r doc_type top_k v v' ps p :
  r ≠ "" ->
  In (score_point similarity v p)
     (hits_of v' (search_filter_of (Some r) doc_type) top_k ps) ->
  point_payload p !! "repo_name" = Some (VStr r).
Proof.
  intros Hr Hin. apply hits_of_origin in Hin as (p' & _ & Hsel & Heq).
  apply (f_equal hit_payload) in Heq. simpl in Heq. rewrite Heq.
  by eapply search_filter_of_repo.
Qed.

(** *** Parent-document retrieval *)

Lemma section_results_search query repo_name top_k w :
  (search encode similarity groq self query (Some repo_name) top_k None true w).1
  = Ok (section_results_of query repo_name top_k w).
Proof. by rewrite search_run. Qed.

Lemma search_with_context_run query repo_name top_k w :
  (search_with_context encode similarity groq self query repo_name top_k w).1
  = Ok (if existsb is_readme (section_results_of query repo_name top_k w)
        then match full_readme_of repo_name w with
             | parent :: _ =>
                 (section_results_of query repo_name top_k w ++ [mark_parent parent])%list
             | [] => section_results_of query repo_name top_k w
             end
        else section_results_of query repo_name top_k w).
Proof.
  unfold search_with_context, bind. rewrite search_run.
  fold (section_results_of query repo_name top_k w).
  destruct (existsb is_readme _); [|done].
  rewrite search_run. simpl. unfold full_readme_of.
  change (search_text_of "full readme overview" false) with "full readme overview".
  by destruct (map result_of_hit _).
Qed.

Lemma full_readme_type repo_name w parent :
  In parent (full_readme_of repo_name w) -> type parent = VStr "readme_full".
Proof.
  unfold full_readme_of. intros (h & <- & Hin)%in_map_iff.
  apply hits_of_origin in Hin as (p & _ & Hsel & ->).
  assert (condition_holds {| cond_key := "doc_type"; cond_value := "readme_full" |}
                          (point_payload p) = true) as Hc.
  { unfold search_filter_of, truthy in Hsel.
    destruct (String.eqb repo_name ""); simpl in Hsel;
      unfold filter_holds in Hsel; simpl in Hsel;
      rewrite ?andb_true_iff in Hsel; tauto. }
  unfold condition_holds in Hc. simpl in Hc. unfold result_of_hit. simpl.
  destruct (point_payload p !! "doc_type") as [[| | |s|]|]; try done.
  simpl. by apply String.eqb_eq in Hc as ->.
Qed.

(** The shape of what [search_with_context] returns: the section results,
    or the section results followed by one marked parent. *)
Lemma search_with_context_shape query repo_name top_k w :
  exists out,
    (search_with_context encode similarity groq self query repo_name top_k w).1 = Ok out
    /\ (out = section_results_of query repo_name top_k w
        \/ exists parent,
             out = (section_results_of query repo_name top_k w ++ [parent])%list
             /\ existsb is_readme (section_results_of query repo_name top_k w) = true
             /\ type parent = VStr "readme_full"
             /\ score parent = 1 # 2
             /\ is_parent parent = Some true).
Proof.
  rewrite search_with_context_run. eexists; split; [reflexivity|].
  destruct (existsb is_readme _) eqn:E; [|by left].
  destruct (full_readme_of repo_name w) as [|parent rest] eqn:F; [by left|].
  right. exists (mark_parent parent). repeat split; try done.
  simpl. apply (full_readme_type repo_name w). rewrite F. by left.
Qed.

Lemma section_results_plain query repo_name top_k w r :
  In r (section_results_of query repo_name top_k w) -> is_parent r = None.
Proof. unfold section_results_of. by intros (h & <- & _)%in_map_iff. Qed.

(** C1, as amended: the parent appended by [search_with_context] carries
    the fixed score 1/2 whatever the section results scored; it lies
    strictly below every returned readme section as soon as each of those
    scores above 1/2. *)
Theorem parent_score_fixed query repo_name top_k w sec out parent :
  (search encode similarity groq self query (Some repo_name) top_k None true w).1
  = Ok sec ->
  (search_with_context encode similarity groq self query repo_name top_k w).1 = Ok out ->
  out = (sec ++ [parent])%list ->
  score parent = 1 # 2
  /\ ((forall r, In r sec -> is_readme r = true -> (1 # 2 < score r)%Q) ->
      forall r, In r sec -> is_readme r = true -> (score parent < score r)%Q).
Proof.
  intros Hsec Hrun Hout. rewrite section_results_search in Hsec.
  injection Hsec as <-.
  destruct (search_with_context_shape query repo_name top_k w)
    as (out' & Hrun' & [Hsame | (parent' & Hout' & _ & _ & Hscore & _)]).
  - rewrite Hrun in Hrun'. injection Hrun' as <-.
    rewrite Hsame in Hout at 1.
    apply (f_equal length) in Hout. rewrite length_app in Hout. simpl in Hout. lia.
  - rewrite Hrun in Hrun'. injection Hrun' as <-.
    rewrite Hout in Hout'. apply app_inv_head in Hout'. injection Hout' as ->.
    split; [done|]. intros Hall r Hr Hreadme. rewrite Hscore. by apply Hall.
Qed.

(** *** Deletion *)

Lemma delete_repo_run repo_name w :
  delete_repo repo_name w
  = (Ok true,
     {| points := other_points repo_name (points w);
        uuid_calls := uuid_calls w;
        trace := (trace w ++ [EvDelete (repo_filter repo_name)])%list |}).
Proof. reflexivity. Qed.

Lemma selected_repo repo_name p :
  selected (Some (repo_filter repo_name)) p = true
  <-> point_payload p !! "repo_name" = Some (VStr repo_name).
Proof. apply filter_holds_repo. Qed.

Lemma other_points_idem repo_name ps :
  other_points repo_name (other_points repo_name ps) = other_points repo_name ps.
Proof.
  unfold other_points. induction ps as [|p ps IH]; cbn [List.filter]; [done|].
  destruct (selected (Some (repo_filter repo_name)) p) eqn:E;
    cbn [List.filter negb]; [done|].
  by rewrite E, IH.
Qed.

Lemma other_points_none repo_name ps :
  (forall p, In p ps -> point_payload p !! "repo_name" ≠ Some (VStr repo_name)) ->
  other_points repo_name ps = ps.
Proof.
  unfold other_points.
  induction ps as [|p ps IH]; cbn [List.filter]; intros Hall; [done|].
  destruct (selected (Some (repo_filter repo_name)) p) eqn:E; cbn [negb].
  - apply selected_repo in E. apply Hall in E; [done | by left].
  - rewrite IH; [done|]. intros q Hq. apply Hall. by right.
Qed.

Lemma other_points_In repo_name ps p :
  In p (other_points repo_name ps)
  <-> In p ps /\ point_payload p !! "repo_name" ≠ Some (VStr repo_name).
Proof.
  unfold other_points. rewrite filter_In, negb_true_iff, <- selected_repo.
  destruct (selected (Some (repo_filter repo_name)) p); intuition congruence.
Qed.

(** C8: [delete_repo] returns [True] on the first call and on the second;
    after the first call no stored point carries the name, the second
    call leaves the stored points as the first left them, and a call for
    a name that no stored point carries changes no stored point. *)
Theorem delete_repo_idempotent repo_name w :
  (delete_repo repo_name w).1 = Ok true
  /\ (delete_repo repo_name (delete_repo repo_name w).2).1 = Ok true
  /\ points (delete_repo repo_name (delete_repo repo_name w).2).2
     = points (delete_repo repo_name w).2
  /\ (forall p, In p (points (delete_repo repo_name w).2) ->
                point_payload p !! "repo_name" ≠ Some (VStr repo_name))
  /\ ((forall p, In p (points w) ->
                 point_payload p !! "repo_name" ≠ Some (VStr repo_name)) ->
      points (delete_repo repo_name w).2 = points w).
Proof.
  rewrite !delete_repo_run. simpl. repeat split.
  - apply other_points_idem.
  - intros p Hp. by apply other_points_In in Hp as [_ Hp].
  - apply other_points_none.
Qed.

(** *** Re-indexing *)

Lemma make_points_run repo_name pairs w :
  make_points uuid4 repo_name pairs w
  = (Ok (points_from repo_name (uuid_calls w) pairs),
     {| points := points w; uuid_calls := uuid_calls w + length pairs;
        trace := trace w |}).
Proof.
  revert w. induction pairs as [|[doc embedding] rest IH]; intros w.
  - destruct w; simpl. unfold ret. by rewrite Nat.add_0_r.
  - cbn [make_points]. unfold bind at 1, uuid_uuid4. unfold bind at 1.
    rewrite IH. simpl. unfold ret. do 3 f_equal. lia.
Qed.

Lemma points_from_length repo_name n pairs :
  length (points_from repo_name n pairs) = length pairs.
Proof.
  revert n. induction pairs as [|[doc e] rest IH]; intros n; simpl; [done|].
  by rewrite IH.
Qed.

Lemma new_points_length repo_name n documents :
  length (new_points repo_name n documents) = length documents.
Proof.
  unfold new_points. rewrite points_from_length, length_zip, !length_map. lia.
Qed.

Lemma points_from_ids repo_name n pairs :
  map point_id (points_from repo_name n pairs) = map uuid4 (seq n (length pairs)).
Proof.
  revert n. induction pairs as [|[doc e] rest IH]; intros n; simpl; [done|].
  by rewrite IH.
Qed.

Lemma points_from_payloads repo_name n pairs :
  map point_payload (points_from repo_name n pairs)
  = map (fun pair => make_payload repo_name pair.1) pairs.
Proof.
  revert n. induction pairs as [|[doc e] rest IH]; intros n; simpl; [done|].
  by rewrite IH.
Qed.

Lemma index_documents_run repo_name documents w :
  documents ≠ [] ->
  index_documents encode uuid4 repo_name documents w
  = (Ok (length documents),
     {| points := upsert_points (new_points repo_name (uuid_calls w) documents)
                                (points w);
        uuid_calls := uuid_calls w + length documents;
        trace := (trace w
                  ++ [EvEncodeBatch (map doc_content documents);
                      EvUpsert (new_points repo_name (uuid_calls w) documents)])%list |}).
Proof.
  intros Hne. destruct documents as [|d ds]; [done|].
  unfold index_documents. set (documents := d :: ds) in *.
  unfold bind at 1, embed_batch, embedder_encode_batch. unfold bind at 1, emit, ret.
  unfold bind at 1. rewrite make_points_run. cbn [points uuid_calls trace].
  fold (new_points repo_name (uuid_calls w) documents).
  unfold client_upsert, emit, get_points, put_points, ret, bind.
  cbn [points uuid_calls trace].
  rewrite new_points_length, <- app_assoc.
  rewrite length_zip, !length_map, Nat.min_id. done.
Qed.

Lemma index_repository_run repo_name documents w :
  documents ≠ [] ->
  index_repository encode uuid4 repo_name documents w
  = index_documents encode uuid4 repo_name documents (delete_repo repo_name w).2.
Proof.
  intros Hne. unfold index_repository, try_except. unfold bind at 1.
  destruct documents as [|d ds]; [done|]. unfold ret at 1. unfold bind at 1.
  rewrite delete_repo_run. cbn [snd]. by rewrite index_documents_run.
Qed.

Lemma new_points_fresh repo_name documents w :
  never_reused -> ids_drawn w ->
  upsert_points (new_points repo_name (uuid_calls w) documents) (points w)
  = (points w ++ new_points repo_name (uuid_calls w) documents)%list.
Proof.
  intros Hinj Hwf. apply upsert_points_fresh.
  - unfold new_points. rewrite points_from_ids.
    apply (@NoDup_fmap_2 _ _ uuid4 Hinj), NoDup_seq.
  - apply List.Forall_forall. intros q Hq Hin.
    apply Hwf in Hq as (i & Hi & Hid).
    unfold new_points in Hin. rewrite points_from_ids in Hin.
    apply list_elem_of_In, in_map_iff in Hin as (j & Hj & Hseq).
    apply in_seq in Hseq. rewrite Hid in Hj. apply Hinj in Hj. lia.
Qed.

Lemma make_payload_repo_name repo_name doc :
  plain_metadata doc ->
  make_payload repo_name doc !! "repo_name" = Some (VStr repo_name).
Proof.
  unfold plain_metadata, make_payload. intros Hplain.
  rewrite lookup_union_r; [|done]. by rewrite lookup_insert_eq.
Qed.

Lemma ids_drawn_empty : ids_drawn empty_world.
Proof. intros p []. Qed.

Lemma ids_drawn_delete repo_name w :
  ids_drawn w -> ids_drawn (delete_repo repo_name w).2.
Proof.
  intros Hwf p Hp. rewrite delete_repo_run in Hp. simpl in Hp.
  apply other_points_In in Hp as [Hp _]. by apply Hwf.
Qed.

Lemma new_points_ids repo_name n documents p :
  In p (new_points repo_name n documents) ->
  exists i, (n <= i < n + length documents)%nat /\ point_id p = uuid4 i.
Proof.
  intros Hin. apply (in_map point_id) in Hin.
  unfold new_points in Hin. rewrite points_from_ids in Hin.
  apply in_map_iff in Hin as (i & Hi & Hseq). apply in_seq in Hseq.
  rewrite length_zip, !length_map, Nat.min_id in Hseq. eauto.
Qed.

Lemma index_documents_points repo_name documents w :
  never_reused -> ids_drawn w ->
  points (index_documents encode uuid4 repo_name documents w).2
  = (points w ++ new_points repo_name (uuid_calls w) documents)%list
  /\ uuid_calls (index_documents encode uuid4 repo_name documents w).2
     = (uuid_calls w + length documents)%nat.
Proof.
  intros Hinj Hwf. destruct documents as [|d ds].
  - simpl. by rewrite app_nil_r, Nat.add_0_r.
  - rewrite index_documents_run; [|done]. simpl.
    split; [|done]. by apply (new_points_fresh repo_name (d :: ds)).
Qed.

Lemma ids_drawn_index repo_name documents w :
  never_reused -> ids_drawn w ->
  ids_drawn (index_documents encode uuid4 repo_name documents w).2.
Proof.
  intros Hinj Hwf p Hp.
  destruct (index_documents_points repo_name documents w Hinj Hwf) as [Hps Hn].
  rewrite Hps in Hp. rewrite Hn. apply in_app_iff in Hp as [Hp|Hp].
  - apply Hwf in Hp as (i & Hi & Hid). exists i. split; [lia | done].
  - apply new_points_ids in Hp as (i & Hi & Hid). exists i. split; [lia | done].
Qed.

Lemma filter_idem {A} (f : A -> bool) l :
  List.filter f (List.filter f l) = List.filter f l.
Proof.
  induction l as [|x l IH]; cbn [List.filter]; [done|].
  destruct (f x) eqn:E; cbn [List.filter]; [|done]. by rewrite E, IH.
Qed.

Lemma filter_all {A} (f : A -> bool) l :
  (forall x, In x l -> f x = true) -> List.filter f l = l.
Proof.
  induction l as [|x l IH]; cbn [List.filter]; intros Hall; [done|].
  rewrite (Hall x); [|by left]. rewrite IH; [done|].
  intros y Hy. apply Hall. by right.
Qed.

Lemma filter_none {A} (f : A -> bool) l :
  (forall x, In x l -> f x = false) -> List.filter f l = [].
Proof.
  induction l as [|x l IH]; cbn [List.filter]; intros Hall; [done|].
  rewrite (Hall x); [|by left]. apply IH.
  intros y Hy. apply Hall. by right.
Qed.

Lemma hits_of_filter v f limit ps :
  hits_of v f limit (List.filter (selected f) ps) = hits_of v f limit ps.
Proof. unfold hits_of. by rewrite filter_idem. Qed.

Lemma new_points_payloads repo_name n documents :
  map point_payload (new_points repo_name n documents)
  = map (make_payload repo_name) documents.
Proof.
  unfold new_points. rewrite points_from_payloads.
  rewrite <- (map_map fst (make_payload repo_name)).
  f_equal. apply fst_zip. by rewrite !length_map.
Qed.

Lemma new_points_selected repo_name n documents p :
  Forall plain_metadata documents ->
  In p (new_points repo_name n documents) ->
  selected (Some (repo_filter repo_name)) p = true.
Proof.
  intros Hplain Hin. apply selected_repo.
  apply (in_map point_payload) in Hin. rewrite new_points_payloads in Hin.
  apply in_map_iff in Hin as (d & <- & Hd).
  apply make_payload_repo_name.
  rewrite List.Forall_forall in Hplain. by apply Hplain.
Qed.

Lemma search_filter_of_scoped repo_name :
  repo_name ≠ "" -> search_filter_of (Some repo_name) None = Some (repo_filter repo_name).
Proof.
  intros Hr. unfold search_filter_of, truthy.
  by destruct (String.eqb_spec repo_name "").
Qed.

Lemma new_points_repo_name repo_name n documents p :
  Forall plain_metadata documents ->
  In p (new_points repo_name n documents) ->
  point_payload p !! "repo_name" = Some (VStr repo_name).
Proof. intros Hplain Hin. apply selected_repo. by eapply new_points_selected. Qed.

(** *** Isolation between repositories *)

(** C2, as amended: documents are indexed with [index_documents] under
    the name [a] and then under the name [b], none of them with a metadata
    key named [repo_name], and the index is searched with a non-empty
    [repo_name] argument [r].  Every hit is a stored point whose
    [repo_name] payload field is [r]; no point stored for the documents
    indexed under [a] is among the hits unless [a] is [r], and none stored
    for the documents indexed under [b] unless [b] is [r]. *)
Theorem search_repo_isolation r a b docs_a docs_b query top_k doc_type use_hyde w :
  r ≠ "" ->
  never_reused -> ids_drawn w ->
  Forall plain_metadata docs_a -> Forall plain_metadata docs_b ->
  exists added_a added_b hits,
    points (index_documents encode uuid4 b docs_b
              (index_documents encode uuid4 a docs_a w).2).2
    = (points w ++ added_a ++ added_b)%list
    /\ map point_payload added_a = map (make_payload a) docs_a
    /\ map point_payload added_b = map (make_payload b) docs_b
    /\ (search encode similarity groq self query (Some r) top_k doc_type use_hyde
          (index_documents encode uuid4 b docs_b
             (index_documents encode uuid4 a docs_a w).2).2).1
       = Ok (map result_of_hit hits)
    /\ (forall h, In h hits ->
          hit_payload h !! "repo_name" = Some (VStr r)
          /\ exists p, In p (points w ++ added_a ++ added_b)%list
                       /\ hit_id h = point_id p
                       /\ hit_payload h = point_payload p)
    /\ (a ≠ r ->
        forall p v, In p added_a -> ~ In (score_point similarity v p) hits)
    /\ (b ≠ r ->
        forall p v, In p added_b -> ~ In (score_point similarity v p) hits).
Proof.
  intros Hr Hinj Hwf Ha Hb.
  pose proof (ids_drawn_index a docs_a w Hinj Hwf) as Hwf1.
  destruct (index_documents_points a docs_a w Hinj Hwf) as [Hps1 _].
  destruct (index_documents_points b docs_b _ Hinj Hwf1) as [Hps2 _].
  rewrite Hps1, <- app_assoc in Hps2.
  exists (new_points a (uuid_calls w) docs_a),
         (new_points b (uuid_calls (index_documents encode uuid4 a docs_a w).2) docs_b).
  rewrite search_run, Hps2. eexists.
  split; [reflexivity|]. split; [apply new_points_payloads|].
  split; [apply new_points_payloads|]. split; [reflexivity|]. split; [|split].
  - intros h Hin. apply hits_of_origin in Hin as (p & Hp & Hsel & ->). simpl.
    split; [by eapply search_filter_of_repo | eauto].
  - intros Hne p v Hp Hin. apply scoped_hit_repo in Hin; [|done].
    rewrite (new_points_repo_name a _ docs_a p Ha Hp) in Hin. congruence.
  - intros Hne p v Hp Hin. apply scoped_hit_repo in Hin; [|done].
    rewrite (new_points_repo_name b _ docs_b p Hb Hp) in Hin. congruence.
Qed.

(** C4, as amended: re-indexing deletes and then inserts.  When no
    document of the new batch carries a metadata key named [repo_name],
    the points reachable under the repository after the re-index are the
    points of the new batch, in order, with the payloads built from its
    documents; no point of the earlier batch is among them, and a search
    scoped to the repository ranks the new points only. *)
Theorem reindex_replaces repo_name old new w :
  never_reused -> ids_drawn w -> new ≠ [] -> Forall plain_metadata new ->
  (index_repository encode uuid4 repo_name new
     (index_documents encode uuid4 repo_name old w).2).1 = Ok (length new)
  /\ repo_points repo_name
       (index_repository encode uuid4 repo_name new
          (index_documents encode uuid4 repo_name old w).2).2
     = new_points repo_name (uuid_calls w + length old) new
  /\ map point_payload
       (repo_points repo_name
          (index_repository encode uuid4 repo_name new
             (index_documents encode uuid4 repo_name old w).2).2)
     = map (make_payload repo_name) new
  /\ (forall p, In p (new_points repo_name (uuid_calls w) old) ->
                ~ In p (repo_points repo_name
                          (index_repository encode uuid4 repo_name new
                             (index_documents encode uuid4 repo_name old w).2).2))
  /\ (repo_name ≠ "" ->
      forall query top_k use_hyde,
        (search encode similarity groq self query (Some repo_name) top_k None use_hyde
           (index_repository encode uuid4 repo_name new
              (index_documents encode uuid4 repo_name old w).2).2).1
        = Ok (map result_of_hit
                (hits_of (encode (search_text_of query use_hyde))
                         (Some (repo_filter repo_name)) top_k
                         (new_points repo_name (uuid_calls w + length old) new)))).
Proof.
  intros Hinj Hwf Hne Hplain.
  pose proof (ids_drawn_index repo_name old w Hinj Hwf) as Hwf1.
  destruct (index_documents_points repo_name old w Hinj Hwf) as [_ Hn1].
  set (w1 := (index_documents encode uuid4 repo_name old w).2) in *.
  pose proof (ids_drawn_delete repo_name w1 Hwf1) as Hwfd.
  destruct (index_documents_points repo_name new _ Hinj Hwfd) as [Hps2 _].
  rewrite index_repository_run; [|done].
  set (w2 := (index_documents encode uuid4 repo_name new
                (delete_repo repo_name w1).2).2) in *.
  assert (repo_points repo_name w2
          = new_points repo_name (uuid_calls w + length old) new) as Hrepo.
  { unfold repo_points. rewrite Hps2, List.filter_app.
    rewrite delete_repo_run. cbn [snd points uuid_calls]. rewrite Hn1.
    rewrite filter_none, filter_all; [done | |].
    - intros p. by apply new_points_selected.
    - intros p [_ Hp]%other_points_In.
      destruct (selected (Some (repo_filter repo_name)) p) eqn:E; [|done].
      by apply selected_repo in E. }
  split; [by rewrite index_documents_run|].
  split; [done|]. split; [by rewrite Hrepo, new_points_payloads|]. split.
  - intros p Hold Hnew. rewrite Hrepo in Hnew.
    apply new_points_ids in Hold as (i & Hi & Hid).
    apply new_points_ids in Hnew as (j & Hj & Hjd).
    rewrite Hid in Hjd. apply Hinj in Hjd. lia.
  - intros Hr query top_k use_hyde. rewrite search_run. cbn [fst].
    rewrite search_filter_of_scoped; [|done].
    rewrite <- hits_of_filter. fold (repo_points repo_name w2). by rewrite Hrepo.
Qed.

(** *** Enumeration of the indexed repositories *)

Lemma collect_repos_length records repos w out w' :
  collect_repos records repos w = (Ok out, w') ->
  (length out <= length repos + length records)%nat.
Proof.
  revert repos w. induction records as [|point rest IH]; intros repos w; simpl.
  - unfold ret. intros [= <- _]. lia.
  - destruct (point.2 !! "repo_name") as [v|].
    + destruct (negb (bool_decide (point.2 = ∅))).
      * unfold bind, set_add. destruct (hashable v); [|done].
        unfold ret.
        destruct (existsb (py_eqb v) repos); intros Hrun%IH; [lia|].
        rewrite length_app in Hrun. simpl in Hrun. lia.
      * intros Hrun%IH. lia.
    + intros Hrun%IH. lia.
Qed.

(** However many repositories are stored, [get_indexed_repos] reads one
    page of 1000 points and so returns at most 1000 names. *)
Lemma get_indexed_repos_bound w out w' :
  get_indexed_repos w = (Ok out, w') -> (length out <= 1000)%nat.
Proof.
  unfold get_indexed_repos, client_scroll, bind, emit, get_points, ret.
  cbn [points]. intros Hrun%collect_repos_length.
  rewrite length_map, length_firstn in Hrun. cbn [length] in Hrun. lia.
Qed.

Lemma stored_names_cons p ps :
  stored_names (p :: ps)
  = match point_payload p !! "repo_name" with
    | Some v => v :: stored_names ps
    | None => stored_names ps
    end.
Proof. reflexivity. Qed.

Lemma restrict_payload_lookup pl :
  restrict_payload ["repo_name"] pl !! "repo_name" = pl !! "repo_name".
Proof.
  unfold restrict_payload. destruct (pl !! "repo_name") as [v|] eqn:E.
  - apply map_lookup_filter_Some. split; [done|]. simpl. by left.
  - apply map_lookup_filter_None. by left.
Qed.

Lemma collect_repos_run ps repos w :
  Forall (fun v => hashable v = true) (stored_names ps) ->
  collect_repos (scroll_records ps) repos w
  = (Ok (fold_left add_name (stored_names ps) repos), w).
Proof.
  revert repos. induction ps as [|p ps IH]; intros repos Hhash; [done|].
  rewrite stored_names_cons in *. cbn [scroll_records map collect_repos snd].
  rewrite restrict_payload_lookup.
  destruct (point_payload p !! "repo_name") as [v|] eqn:E; [|by apply IH].
  apply Forall_cons in Hhash as [Hv Hhash].
  rewrite bool_decide_eq_false_2.
  - cbn [negb]. unfold bind, set_add. rewrite Hv. unfold ret.
    fold (add_name repos v). by apply IH.
  - intros Hempty. pose proof (restrict_payload_lookup (point_payload p)) as Hl.
    rewrite Hempty, E, lookup_empty in Hl. done.
Qed.

Lemma py_eqb_refl v : hashable v = true -> py_eqb v v = true.
Proof.
  destruct v as [|b|z|s|l]; simpl; try done.
  - by destruct b.
  - by intros _; apply Z.eqb_refl.
  - by intros _; apply String.eqb_refl.
Qed.

Lemma add_name_keeps repos v x :
  existsb (py_eqb x) repos = true -> existsb (py_eqb x) (add_name repos v) = true.
Proof.
  unfold add_name. intros Hx. destruct (existsb (py_eqb v) repos); [done|].
  by rewrite existsb_app, Hx.
Qed.

Lemma fold_add_name_keeps vs repos x :
  existsb (py_eqb x) repos = true ->
  existsb (py_eqb x) (fold_left add_name vs repos) = true.
Proof.
  revert repos. induction vs as [|v vs IH]; intros repos Hx; [done|].
  simpl. by apply IH, add_name_keeps.
Qed.

Lemma fold_add_name_covers vs repos v :
  In v vs -> hashable v = true ->
  existsb (py_eqb v) (fold_left add_name vs repos) = true.
Proof.
  revert repos. induction vs as [|x vs IH]; intros repos Hin Hv; [done|].
  destruct Hin as [->|Hin]; [|by apply IH].
  simpl. apply fold_add_name_keeps. unfold add_name.
  destruct (existsb (py_eqb v) repos) eqn:E; [done|].
  rewrite existsb_app. simpl. by rewrite py_eqb_refl, orb_true_r.
Qed.

Lemma fold_add_name_origin vs repos x :
  In x (fold_left add_name vs repos) -> In x repos \/ In x vs.
Proof.
  revert repos. induction vs as [|v vs IH]; intros repos Hin; [by left|].
  simpl in Hin. apply IH in Hin as [Hin|Hin]; [|right; by right].
  unfold add_name in Hin. destruct (existsb (py_eqb v) repos); [by left|].
  apply in_app_iff in Hin as [Hin|[<-|[]]]; [by left | right; by left].
Qed.

Lemma stored_names_In ps v :
  In v (stored_names ps) <-> exists p, In p ps /\ point_payload p !! "repo_name" = Some v.
Proof.
  unfold stored_names. rewrite <- list_elem_of_In, list_elem_of_omap.
  by setoid_rewrite list_elem_of_In.
Qed.

(** On an index of at most 1000 points whose [repo_name] values are
    hashable, [get_indexed_repos] does enumerate the stored names: each
    stored name is in the result, and each name in the result is stored. *)
Lemma get_indexed_repos_small w :
  (length (points w) <= 1000)%nat ->
  Forall (fun v => hashable v = true) (stored_names (points w)) ->
  exists names,
    (get_indexed_repos w).1 = Ok names
    /\ (forall p v, In p (points w) -> point_payload p !! "repo_name" = Some v ->
                    existsb (py_eqb v) names = true)
    /\ (forall v, In v names ->
                  exists p, In p (points w) /\ point_payload p !! "repo_name" = Some v).
Proof.
  intros Hlen Hhash. exists (fold_left add_name (stored_names (points w)) []).
  split; [|split].
  - unfold get_indexed_repos, client_scroll, bind, emit, get_points, ret.
    cbn [points]. rewrite firstn_all2; [|done].
    fold (scroll_records (points w)). by rewrite collect_repos_run.
  - intros p v Hp Hv. apply fold_add_name_covers.
    + apply stored_names_In. eauto.
    + rewrite List.Forall_forall in Hhash. apply Hhash, stored_names_In. eauto.
  - intros v [[]|Hin]%fold_add_name_origin. by apply stored_names_In.
Qed.

(** * Further properties of the engine *)

(** ** Ranking and truncation *)

Lemma descending_tail h l : descending (h :: l) -> descending l.
Proof. inversion 1; subst; [constructor | done]. Qed.

Lemma descending_head h l x :
  descending (h :: l) -> In x l -> (hit_score x <= hit_score h)%Q.
Proof.
  revert h. induction l as [|y l IH]; intros h Hd Hin; [done|].
  inversion Hd as [| |? ? ? Hyh Hd']; subst.
  destruct Hin as [->|Hin]; [done|].
  eapply Qle_trans; [|exact Hyh]. by apply IH.
Qed.

Lemma descending_lookup l i j a b :
  descending l -> (i <= j)%nat -> l !! i = Some a -> l !! j = Some b ->
  (hit_score b <= hit_score a)%Q.
Proof.
  revert i j. induction l as [|h l IH]; intros i j Hd Hij Ha Hb; [done|].
  destruct i as [|i]; simpl in Ha.
  - injection Ha as ->. destruct j as [|j]; simpl in Hb.
    + injection Hb as ->. apply Qle_refl.
    + apply (descending_head a l); [done|].
      apply list_elem_of_In. by eapply list_elem_of_lookup_2.
  - destruct j as [|j]; [lia|]. simpl in Hb.
    apply (IH i j); [by eapply descending_tail | lia | done | done].
Qed.

Lemma descending_firstn n l : descending l -> descending (firstn n l).
Proof.
  intros Hd. revert n. induction Hd as [|h|h x l Hxh Hd IH]; intros [|n]; simpl;
    try constructor.
  - destruct n; constructor.
  - destruct n as [|n]; [constructor|].
    constructor; [done|]. apply (IH (S n)).
Qed.

Lemma hits_of_descending v f limit ps : descending (hits_of v f limit ps).
Proof. unfold hits_of. apply descending_firstn, rank_descending. Qed.

(** X1: [search] returns at most [top_k] results and returns them best
    first. *)
Theorem search_top_k_best_first query repo_name top_k doc_type use_hyde w :
  exists rs,
    (search encode similarity groq self query repo_name top_k doc_type use_hyde w).1
    = Ok rs
    /\ (length rs <= top_k)%nat
    /\ best_first rs.
Proof.
  rewrite search_run. eexists; split; [reflexivity|]. split.
  - rewrite length_map. apply hits_of_length.
  - intros i j a b Hij Ha Hb.
    rewrite list_lookup_fmap in Ha, Hb.
    destruct (hits_of _ _ _ _ !! i) as [ha|] eqn:Ea; [|done].
    destruct (hits_of _ _ _ _ !! j) as [hb|] eqn:Eb; [|done].
    simpl in Ha, Hb. injection Ha as <-. injection Hb as <-. simpl.
    eapply descending_lookup; [apply hits_of_descending | exact Hij | exact Ea | exact Eb].
Qed.

(** ** Reading does not write *)

Lemma same_store_add_trace evs w : same_store w (add_trace evs w).
Proof. by split. Qed.

Lemma search_with_context_world query repo_name top_k w :
  exists evs,
    (search_with_context encode similarity groq self query repo_name top_k w).2
    = add_trace evs w.
Proof.
  unfold search_with_context, bind. rewrite search_run.
  destruct (existsb is_readme _).
  - rewrite search_run. rewrite add_trace_add.
    destruct (map result_of_hit _); by eexists.
  - by eexists.
Qed.

Lemma search_for_files_world query repo_name w :
  exists evs,
    (search_for_files encode similarity groq self query repo_name w).2 = add_trace evs w
    /\ generator_calls evs = 0%nat.
Proof.
  unfold search_for_files, bind. rewrite search_run.
  destruct (map result_of_hit _).
  - rewrite search_run, add_trace_add. by eexists.
  - by eexists.
Qed.

Lemma collect_repos_world records repos w :
  (collect_repos records repos w).2 = w.
Proof.
  revert repos. induction records as [|point rest IH]; intros repos; [done|].
  simpl. destruct (point.2 !! "repo_name") as [v|]; [|apply IH].
  destruct (negb (bool_decide (point.2 = ∅))); [|apply IH].
  unfold bind, set_add. destruct (hashable v); [|done]. apply IH.
Qed.

(** X2: the four reading methods leave the index as it is, whatever they
    return: the stored points and the identifiers drawn are unchanged after
    [search], [search_with_context], [search_for_files] and
    [get_indexed_repos]. *)
Theorem reads_leave_store query repo_name repo top_k doc_type use_hyde w :
  same_store w
    (search encode similarity groq self query repo_name top_k doc_type use_hyde w).2
  /\ same_store w
       (search_with_context encode similarity groq self query repo top_k w).2
  /\ same_store w (search_for_files encode similarity groq self query repo w).2
  /\ same_store w (get_indexed_repos w).2.
Proof.
  split; [rewrite search_run; apply same_store_add_trace|].
  split.
  { destruct (search_with_context_world query repo top_k w) as [evs ->].
    apply same_store_add_trace. }
  split.
  { destruct (search_for_files_world query repo w) as (evs & -> & _).
    apply same_store_add_trace. }
  unfold get_indexed_repos, client_scroll, bind, emit, get_points, ret.
  cbn [points]. rewrite collect_repos_world. by split.
Qed.

(** ** Filters *)

Lemma hits_of_none v f limit ps :
  (forall p, In p ps -> selected f p = false) -> hits_of v f limit ps = [].
Proof.
  intros Hnone. unfold hits_of. rewrite filter_none; [|done].
  by destruct limit.
Qed.

Lemma search_filter_of_doc_type repo_name t p :
  t ≠ "" ->
  selected (search_filter_of repo_name (Some t)) p = true ->
  point_payload p !! "doc_type" = Some (VStr t).
Proof.
  intros Ht. unfold search_filter_of.
  assert (truthy (Some t) = true) as ->.
  { unfold truthy. by destruct (String.eqb_spec t ""). }
  intros Hsel.
  assert (condition_holds {| cond_key := "doc_type"; cond_value := t |}
                          (point_payload p) = true) as Hc.
  { destruct (truthy repo_name); simpl in Hsel;
      unfold filter_holds in Hsel; simpl in Hsel;
      rewrite ?andb_true_iff in Hsel; tauto. }
  unfold condition_holds in Hc. simpl in Hc.
  destruct (point_payload p !! "doc_type") as [[| | |s|]|]; try done.
  by apply String.eqb_eq in Hc as ->.
Qed.

Lemma unindexed_not_selected r doc_type ps :
  r ≠ "" ->
  (forall p, In p ps -> point_payload p !! "repo_name" ≠ Some (VStr r)) ->
  forall p, In p ps -> selected (search_filter_of (Some r) doc_type) p = false.
Proof.
  intros Hr Hnone p Hp.
  destruct (selected (search_filter_of (Some r) doc_type) p) eqn:E; [|done].
  apply search_filter_of_repo in E; [|done]. by apply Hnone in E.
Qed.

(** X3: a search scoped to a repository of which the index holds no
    document returns the empty list, not an error; so do
    [search_with_context] and [search_for_files]. *)
Theorem search_unindexed_repo r query top_k doc_type use_hyde w :
  r ≠ "" ->
  (forall p, In p (points w) -> point_payload p !! "repo_name" ≠ Some (VStr r)) ->
  (search encode similarity groq self query (Some r) top_k doc_type use_hyde w).1 = Ok []
  /\ (search_with_context encode similarity groq self query r top_k w).1 = Ok []
  /\ (search_for_files encode similarity groq self query r w).1 = Ok [].
Proof.
  intros Hr Hnone.
  assert (forall q k dt uh,
            search encode similarity groq self q (Some r) k dt uh w
            = (Ok [], add_trace (search_events q (Some r) k dt uh) w)) as Hs.
  { intros q k dt uh. rewrite search_run, hits_of_none; [done|].
    by apply unindexed_not_selected. }
  split; [by rewrite Hs|]. split.
  - rewrite search_with_context_run. unfold section_results_of.
    rewrite hits_of_none; [done|]. by apply unindexed_not_selected.
  - unfold search_for_files, bind. rewrite Hs, search_run, hits_of_none; [done|].
    by apply unindexed_not_selected.
Qed.

(** X4: with a non-empty [doc_type], every result of [search] has that
    type. *)
Theorem search_doc_type_filter query repo_name top_k t use_hyde w rs :
  t ≠ "" ->
  (search encode similarity groq self query repo_name top_k (Some t) use_hyde w).1
  = Ok rs ->
  forall r, In r rs -> type r = VStr t.
Proof.
  intros Ht. rewrite search_run. intros [= <-] r (h & <- & Hin)%in_map_iff.
  apply hits_of_origin in Hin as (p & _ & Hsel & ->).
  apply search_filter_of_doc_type in Hsel; [|done].
  unfold result_of_hit. simpl. by rewrite Hsel.
Qed.

(** X5: an empty or missing [repo_name] (and [doc_type]) puts no filter on
    the search: every stored point competes, whatever its repository, and
    the call returns [top_k] results or, if fewer are stored, one per
    stored point. *)
Theorem search_unscoped_is_global query repo_name top_k doc_type use_hyde w rs :
  truthy repo_name = false -> truthy doc_type = false ->
  (search encode similarity groq self query repo_name top_k doc_type use_hyde w).1
  = Ok rs ->
  length rs = Nat.min top_k (length (points w)).
Proof.
  intros Hr Ht. rewrite search_run. intros [= <-].
  unfold search_filter_of. rewrite Hr, Ht. simpl.
  unfold hits_of. rewrite length_map, length_firstn, rank_length, length_map.
  rewrite filter_all; done.
Qed.

(** ** File recommendations *)

Lemma selected_file_tree r p :
  r ≠ "" ->
  selected (search_filter_of (Some r) (Some "file_tree")) p = true
  <-> file_tree_of r p.
Proof.
  intros Hr. split.
  - intros Hsel. split.
    + by eapply search_filter_of_repo.
    + by eapply search_filter_of_doc_type.
  - intros [Hrepo Htype]. unfold search_filter_of, truthy.
    destruct (String.eqb_spec r ""); [done|]. simpl.
    unfold filter_holds, condition_holds. simpl. rewrite Hrepo, Htype.
    by rewrite String.eqb_refl.
Qed.

Lemma hits_of_best v f limit ps h rest :
  hits_of v f (S limit) ps = h :: rest ->
  exists p, In p ps /\ selected f p = true /\ h = score_point similarity v p
            /\ forall q, In q ps -> selected f q = true ->
                         (similarity v (point_vector q) <= similarity v (point_vector p))%Q.
Proof.
  intros E.
  assert (In h (hits_of v f (S limit) ps)) as Hin by (rewrite E; by left).
  apply hits_of_origin in Hin as (p & Hp & Hsel & ->).
  exists p. do 3 (split; [done|]). intros q Hq Hselq. unfold hits_of in E.
  pose proof (rank_descending
                (map (score_point similarity v) (List.filter (selected f) ps))) as Hd.
  assert (In (score_point similarity v q)
             (rank (map (score_point similarity v) (List.filter (selected f) ps))))
    as Hinq.
  { apply rank_In, in_map, filter_In. by split. }
  destruct (rank _) as [|h' l]; [done|]. cbn [firstn] in E. injection E as -> _.
  destruct Hinq as [Heq|Hinq].
  - apply (f_equal hit_score) in Heq. simpl in Heq. rewrite Heq. apply Qle_refl.
  - apply (descending_head _ _ _ Hd) in Hinq. exact Hinq.
Qed.

Lemma hits_of_empty v f limit ps :
  hits_of v f (S limit) ps = [] -> forall q, In q ps -> selected f q = false.
Proof.
  intros E q Hq. destruct (selected f q) eqn:Hsel; [|done].
  unfold hits_of in E.
  assert (In (score_point similarity v q)
             (rank (map (score_point similarity v) (List.filter (selected f) ps))))
    as Hinq.
  { apply rank_In, in_map, filter_In. by split. }
  by destruct (rank _).
Qed.

(** X6: for a non-empty repository name, [search_for_files] answers with
    the one result of its first search when a file tree of the repository
    is stored: the record of a stored point of that repository, of type
    [file_tree], that no other stored file tree of the repository outscores
    against the embedded query.  Only when no file tree of the repository
    is stored does it answer with the search, limited to two results, for
    the query prefixed by "files directories ".  It never returns more than
    two results and never calls the answer generator. *)
Theorem search_for_files_two_tiers query repo_name w :
  repo_name ≠ "" ->
  exists out evs,
    search_for_files encode similarity groq self query repo_name w
    = (Ok out, add_trace evs w)
    /\ (length out <= 2)%nat
    /\ generator_calls evs = 0%nat
    /\ ((exists p,
           In p (points w) /\ file_tree_of repo_name p
           /\ (search encode similarity groq self query (Some repo_name) 1
                 (Some "file_tree") false w).1 = Ok out
           /\ out = [result_of_hit (score_point similarity (encode query) p)]
           /\ forall q, In q (points w) -> file_tree_of repo_name q ->
                        (similarity (encode query) (point_vector q)
                         <= similarity (encode query) (point_vector p))%Q)
        \/ ((forall q, In q (points w) -> ~ file_tree_of repo_name q)
            /\ (search encode similarity groq self ("files directories " +:+ query)
                  (Some repo_name) 2 None false w).1 = Ok out)).
Proof.
  intros Hr. unfold search_for_files, bind. rewrite !search_run. cbn [fst].
  change (search_text_of query false) with query.
  destruct (hits_of (encode query)
                    (search_filter_of (Some repo_name) (Some "file_tree")) 1
                    (points w)) as [|h rest] eqn:E.
  - cbn [map]. rewrite search_run, add_trace_add. eexists _, _.
    split; [reflexivity|].
    split; [rewrite length_map; apply hits_of_length|]. split; [done|].
    right. split; [|reflexivity].
    intros q Hq Hft%selected_file_tree; [|done].
    by rewrite (hits_of_empty _ _ _ _ E q Hq) in Hft.
  - assert (length (h :: rest) <= 1)%nat as Hlen.
    { rewrite <- E. apply hits_of_length. }
    destruct rest; [|simpl in Hlen; lia].
    apply hits_of_best in E as (p & Hp & Hsel & -> & Hbest).
    cbn [map]. eexists _, _. split; [reflexivity|].
    split; [simpl; lia|]. split; [done|]. left. exists p.
    split; [done|]. split; [by apply selected_file_tree|].
    split; [reflexivity|]. split; [reflexivity|].
    intros q Hq Hft. apply Hbest; [done|]. by apply selected_file_tree.
Qed.

(** ** Query augmentation, when the generator answers *)

(** X7: when a key is configured, the query is longer than 20 characters
    and the generator answers, [search] with [use_hyde] returns what a plain
    search for the stripped answer returns: the answer is embedded in place
    of the query, after one request to the generator. *)
Theorem search_hyde_uses_answer key answer query repo_name top_k doc_type w :
  groq_key self = Some key -> key ≠ "" ->
  groq key (hyde_prompt query) = Response true (Some answer) ->
  (20 < String.length query)%nat ->
  (search encode similarity groq self query repo_name top_k doc_type true w).1
  = (search encode similarity groq self (strip answer) repo_name top_k doc_type false w).1
  /\ (search encode similarity groq self query repo_name top_k doc_type true w).2
     = add_trace [EvPost key (hyde_prompt query); EvEncode (strip answer);
                  EvSearch (encode (strip answer))
                           (search_filter_of repo_name doc_type) top_k] w.
Proof.
  intros Hkey Hne Hgroq Hlen. rewrite !search_run.
  unfold search_events, search_text_of, hyde_text, hyde_events.
  apply Nat.ltb_lt in Hlen. rewrite Hlen, Hkey, Hgroq. simpl.
  by destruct (String.eqb_spec key "").
Qed.

(** X8: one call of [search] sends at most one request to the answer
    generator, and none at all when [use_hyde] is off, when the query has
    at most 20 characters or when no key is configured. *)
Theorem search_generator_requests query repo_name top_k doc_type use_hyde w :
  exists evs,
    (search encode similarity groq self query repo_name top_k doc_type use_hyde w).2
    = add_trace evs w
    /\ (generator_calls evs <= 1)%nat
    /\ (use_hyde = false \/ (String.length query <= 20)%nat
        \/ truthy (groq_key self) = false ->
        generator_calls evs = 0%nat).
Proof.
  rewrite search_run. eexists; split; [reflexivity|].
  unfold search_events, generator_calls, hyde_events.
  rewrite List.filter_app, length_app. simpl.
  destruct use_hyde; simpl; [|split; [lia | done]].
  destruct (Nat.ltb_spec 20 (String.length query)) as [Hlt|Hle];
    [|split; [simpl; lia | done]].
  destruct (groq_key self) as [key|]; [|split; [simpl; lia | done]].
  simpl. destruct (String.eqb key ""); simpl; (split; [lia|]).
  - done.
  - intros [?|[?|?]]; [done | lia | done].
Qed.

(** ** Ingestion *)

Lemma points_from_vectors repo_name n pairs :
  map point_vector (points_from repo_name n pairs) = map snd pairs.
Proof.
  revert n. induction pairs as [|[doc e] rest IH]; intros n; simpl; [done|].
  by rewrite IH.
Qed.

Lemma new_points_vectors repo_name n documents :
  map point_vector (new_points repo_name n documents)
  = map (fun d => encode (doc_content d)) documents.
Proof.
  unfold new_points. rewrite points_from_vectors.
  rewrite snd_zip; [|by rewrite !length_map]. by rewrite map_map.
Qed.

(** X9: [index_documents] returns the number of documents and adds one
    point per document after the points already stored, which it leaves as
    they are; the i-th new point holds the embedding of the i-th content and
    the payload built from the i-th document. *)
Theorem index_documents_appends repo_name documents w :
  never_reused -> ids_drawn w ->
  exists added,
    (index_documents encode uuid4 repo_name documents w).1 = Ok (length documents)
    /\ points (index_documents encode uuid4 repo_name documents w).2
       = (points w ++ added)%list
    /\ map point_vector added = map (fun d => encode (doc_content d)) documents
    /\ map point_payload added = map (make_payload repo_name) documents.
Proof.
  intros Hinj Hwf.
  exists (new_points repo_name (uuid_calls w) documents).
  destruct (index_documents_points repo_name documents w Hinj Hwf) as [Hps _].
  split.
  { destruct documents as [|d ds]; [done|]. by rewrite index_documents_run. }
  split; [done|]. split; [apply new_points_vectors | apply new_points_payloads].
Qed.

(** X10: the two invariants of the index, that every stored identifier was
    drawn from [uuid4] and that no two points share one, survive
    [index_documents], [delete_repo] and [index_repository]. *)
Theorem store_invariants_kept repo_name documents w :
  never_reused -> ids_drawn w -> unique_ids w ->
  (ids_drawn (index_documents encode uuid4 repo_name documents w).2
   /\ unique_ids (index_documents encode uuid4 repo_name documents w).2)
  /\ (ids_drawn (delete_repo repo_name w).2
      /\ unique_ids (delete_repo repo_name w).2)
  /\ (ids_drawn (index_repository encode uuid4 repo_name documents w).2
      /\ unique_ids (index_repository encode uuid4 repo_name documents w).2).
Proof.
  intros Hinj Hwf Huniq.
  assert (forall w0, ids_drawn w0 -> unique_ids w0 ->
            unique_ids (index_documents encode uuid4 repo_name documents w0).2) as Hidx.
  { intros w0 Hwf0 Hu0. unfold unique_ids.
    destruct (index_documents_points repo_name documents w0 Hinj Hwf0) as [-> _].
    rewrite map_app. apply NoDup_app. split; [done|]. split.
    - intros i Hold Hnew. apply list_elem_of_In in Hold, Hnew.
      apply in_map_iff in Hold as (p & <- & Hp).
      apply in_map_iff in Hnew as (q & Hq & Hqn).
      apply Hwf0 in Hp as (a & Ha & Hpa).
      apply new_points_ids in Hqn as (b & Hb & Hqb).
      rewrite Hpa, Hqb in Hq. apply Hinj in Hq. lia.
    - unfold new_points. rewrite points_from_ids.
      apply (@NoDup_fmap_2 _ _ uuid4 Hinj), NoDup_seq. }
  assert (unique_ids (delete_repo repo_name w).2) as Hdel.
  { rewrite delete_repo_run. unfold unique_ids, other_points. cbn [snd points].
    clear Hwf Hidx. unfold unique_ids in Huniq.
    induction (points w) as [|p ps IH]; [done|].
    simpl in Huniq. apply NoDup_cons in Huniq as [Hp Hps].
    cbn [List.filter]. destruct (negb _); [|by apply IH].
    simpl. apply NoDup_cons. split; [|by apply IH].
    intros Hin. apply Hp. apply list_elem_of_In in Hin.
    apply in_map_iff in Hin as (q & Hq & Hqin). apply filter_In in Hqin as [Hqin _].
    apply list_elem_of_In, in_map_iff. eauto. }
  split; [split; [by apply ids_drawn_index | by apply Hidx]|].
  split; [split; [by apply ids_drawn_delete | done]|].
  destruct documents as [|d ds].
  - by split.
  - rewrite index_repository_run; [|done]. split.
    + apply ids_drawn_index; [done|]. by apply ids_drawn_delete.
    + apply Hidx; [by apply ids_drawn_delete | done].
Qed.

(** ** What is indexed comes back *)








(** ** Deletion and the other repositories *)

Lemma filter_filter_implied {A} (f g : A -> bool) l :
  (forall x, f x = true -> g x = true) ->
  List.filter f (List.filter g l) = List.filter f l.
Proof.
  intros Himp. induction l as [|x l IH]; cbn [List.filter]; [done|].
  destruct (g x) eqn:Eg; cbn [List.filter].
  - destruct (f x); by rewrite IH.
  - destruct (f x) eqn:Ef; [|done]. apply Himp in Ef. congruence.
Qed.

(** X12: [delete_repo] touches no other repository: the points reachable
    under any other name are the same, in the same order, before and
    after, and the points that remain are exactly those whose [repo_name]
    is not the deleted one. *)
Theorem delete_repo_keeps_others repo_name other w :
  other ≠ repo_name ->
  repo_points other (delete_repo repo_name w).2 = repo_points other w
  /\ (forall p, In p (points (delete_repo repo_name w).2)
               <-> In p (points w)
                   /\ point_payload p !! "repo_name" ≠ Some (VStr repo_name)).
Proof.
  intros Hne. rewrite delete_repo_run. cbn [snd]. split.
  - unfold repo_points, other_points. cbn [points].
    apply filter_filter_implied. intros p Hp%selected_repo.
    apply negb_true_iff.
    destruct (selected (Some (repo_filter repo_name)) p) eqn:E; [|done].
    apply selected_repo in E. congruence.
  - intros p. cbn [points]. apply other_points_In.
Qed.

Lemma collect_repos_origin records repos w out w' :
  collect_repos records repos w = (Ok out, w') ->
  forall x, In x out ->
            In x repos \/ exists point, In point records /\ point.2 !! "repo_name" = Some x.
Proof.
  revert repos w. induction records as [|point rest IH]; intros repos w; simpl.
  - unfold ret. intros [= <- _] x Hx. by left.
  - destruct (point.2 !! "repo_name") as [v|] eqn:E.
    + destruct (negb (bool_decide (point.2 = ∅))).
      * unfold bind, set_add. destruct (hashable v); [|done]. unfold ret.
        intros Hrun x Hx. destruct (IH _ _ Hrun x Hx) as [Hin|(pt & Hpt & Hl)].
        -- destruct (existsb (py_eqb v) repos); [by left|].
           apply in_app_iff in Hin as [Hin|[<-|[]]]; [by left|].
           right. exists point. split; [by left | done].
        -- right. exists pt. split; [by right | done].
      * intros Hrun x Hx. destruct (IH _ _ Hrun x Hx) as [Hin|(pt & Hpt & Hl)];
          [by left|]. right. exists pt. split; [by right | done].
    + intros Hrun x Hx. destruct (IH _ _ Hrun x Hx) as [Hin|(pt & Hpt & Hl)];
        [by left|]. right. exists pt. split; [by right | done].
Qed.

Lemma get_indexed_repos_origin w names :
  (get_indexed_repos w).1 = Ok names ->
  forall x, In x names ->
            exists p, In p (points w) /\ point_payload p !! "repo_name" = Some x.
Proof.
  unfold get_indexed_repos, client_scroll, bind, emit, get_points, ret.
  cbn [points]. intros Hrun x Hx.
  destruct (collect_repos _ _ _) as [res w'] eqn:E. simpl in Hrun. subst res.
  destruct (collect_repos_origin _ _ _ _ _ E x Hx) as [[]|(pt & Hpt & Hl)].
  apply in_map_iff in Hpt as (p & <- & Hp). simpl in Hl.
  rewrite restrict_payload_lookup in Hl. apply firstn_In in Hp. eauto.
Qed.

Lemma py_eqb_str s x : py_eqb (VStr s) x = true -> x = VStr s.
Proof. destruct x; simpl; try done. by intros ->%String.eqb_eq. Qed.

(** X13: once [delete_repo] has run for a repository, a search scoped to
    it finds nothing and [get_indexed_repos], when it returns, does not
    list it. *)
Theorem delete_repo_then_gone r query top_k doc_type use_hyde w :
  r ≠ "" ->
  (search encode similarity groq self query (Some r) top_k doc_type use_hyde
     (delete_repo r w).2).1 = Ok []
  /\ forall names, (get_indexed_repos (delete_repo r w).2).1 = Ok names ->
                   existsb (py_eqb (VStr r)) names = false.
Proof.
  intros Hr.
  assert (forall p, In p (points (delete_repo r w).2) ->
                    point_payload p !! "repo_name" ≠ Some (VStr r)) as Hgone.
  { intros p Hp. rewrite delete_repo_run in Hp. cbn [snd points] in Hp.
    by apply other_points_In in Hp as [_ Hp]. }
  split.
  - rewrite search_run, hits_of_none; [done|]. by apply unindexed_not_selected.
  - intros names Hrun.
    destruct (existsb (py_eqb (VStr r)) names) eqn:E; [|done].
    apply existsb_exists in E as (x & Hx & Heq). apply py_eqb_str in Heq. subst x.
    destruct (get_indexed_repos_origin _ _ Hrun _ Hx) as (p & Hp & Hl).
    by apply Hgone in Hl.
Qed.

(** ** The README parent is there when the fetcher built the documents *)

Lemma hits_of_some v f limit ps p :
  In p ps -> selected f p = true -> hits_of v f (S limit) ps ≠ [].
Proof.
  intros Hp Hsel. unfold hits_of.
  assert (length (rank (map (score_point similarity v) (List.filter (selected f) ps)))
          ≠ 0%nat) as Hlen.
  { rewrite rank_length, length_map.
    assert (In p (List.filter (selected f) ps)) as Hin by by apply filter_In.
    destruct (List.filter (selected f) ps); [done | simpl; lia]. }
  destruct (rank _); [done|]. done.
Qed.

Lemma new_points_of_document repo_name n documents d :
  In d documents ->
  exists p, In p (new_points repo_name n documents)
            /\ point_payload p = make_payload repo_name d.
Proof.
  intros Hd. apply (in_map (make_payload repo_name)) in Hd.
  rewrite <- (new_points_payloads repo_name n) in Hd.
  apply in_map_iff in Hd as (p & Hp & Hin). eauto.
Qed.

(** X19: once the documents [fetch_readme] built from a README are
    indexed for a repository, [search_with_context] on that repository
    always finds the parent: whenever a readme section is among the section
    results, the result ends with a [readme_full] document marked
    [is_parent]. *)
Theorem fetched_readme_has_parent r filename content query top_k w :
  never_reused -> ids_drawn w -> r ≠ "" ->
  exists sec out,
    (search encode similarity groq self query (Some r) top_k None true
       (index_documents encode uuid4 r (fetch_readme (Some (filename, content))) w).2).1
    = Ok sec
    /\ (search_with_context encode similarity groq self query r top_k
          (index_documents encode uuid4 r
             (fetch_readme (Some (filename, content))) w).2).1
       = Ok out
    /\ (existsb is_readme sec = false -> out = sec)
    /\ (existsb is_readme sec = true ->
        exists parent,
          out = (sec ++ [parent])%list
          /\ type parent = VStr "readme_full"
          /\ is_parent parent = Some true).
Proof.
  intros Hinj Hwf Hr.
  set (docs := fetch_readme (Some (filename, content))).
  destruct (index_documents_points r docs w Hinj Hwf) as [Hps _].
  set (w' := (index_documents encode uuid4 r docs w).2) in *.
  exists (section_results_of query r top_k w'). eexists.
  split; [apply section_results_search|].
  split; [apply search_with_context_run|].
  destruct (existsb is_readme (section_results_of query r top_k w')) eqn:E;
    (split; [done|]); [|done]. intros _.
  assert (full_readme_of r w' ≠ []) as Hfull.
  { assert (In (full_document filename content) docs) as Hd.
    { unfold docs, fetch_readme. apply in_app_iff. right. by left. }
    destruct (new_points_of_document r (uuid_calls w) docs _ Hd) as (p & Hp & Hpay).
    unfold full_readme_of.
    intros Hnil%(f_equal length). rewrite length_map in Hnil.
    apply (hits_of_some (encode "full readme overview")
             (search_filter_of (Some r) (Some "readme_full")) 0 (points w') p).
    - rewrite Hps. apply in_app_iff. by right.
    - unfold search_filter_of, truthy.
      destruct (String.eqb_spec r ""); [done|]. simpl.
      unfold filter_holds, condition_holds. simpl. rewrite Hpay.
      unfold make_payload, full_document. simpl.
      rewrite !lookup_union_r by done. simplify_map_eq.
      by rewrite String.eqb_refl.
    - by destruct (hits_of _ _ _ _). }
  destruct (full_readme_of r w') as [|parent rest] eqn:F; [done|].
  exists (mark_parent parent). split; [done|]. split; [|done].
  simpl. apply (full_readme_type r w'). rewrite F. by left.
Qed.

(** ** The outcomes of the re-index handler *)

Lemma index_repository_endpoint_fetched repo_name documents w :
  index_repository_endpoint encode uuid4 true (Fetched repo_name documents) w
  = index_repository encode uuid4 repo_name documents w.
Proof.
  destruct documents as [|d ds]; [done|].
  rewrite index_repository_run by done.
  unfold index_repository_endpoint, try_except, fetch_all, bind, ret.
  cbn [negb fst snd]. rewrite delete_repo_run. cbn [snd].
  by rewrite index_documents_run.
Qed.

(** X20: the handler [index_repository] of [main.py], the calls of the
    store and of the embedder taken not to raise.  It answers 503 when a
    service is missing and 400 when [fetch_all] raises [ValueError]; it
    answers 500 when [fetch_all] raises anything else and also when no
    document was fetched, because the 400 it raises for that case is caught
    by its own [except Exception].  In these four cases the index is left
    untouched and neither the store nor the embedder is called.  Otherwise
    it returns the number of documents, after one deletion for the fetched
    name, one batch embedding of the contents and one upsert of as many
    points, in this order. *)
Theorem index_repository_outcomes services fetched w :
  match services, fetched with
  | false, _ =>
      index_repository_endpoint encode uuid4 services fetched w
      = (Raise (HTTPException 503), w)
  | true, FetchRaised ValueError =>
      index_repository_endpoint encode uuid4 services fetched w
      = (Raise (HTTPException 400), w)
  | true, FetchRaised _ =>
      index_repository_endpoint encode uuid4 services fetched w
      = (Raise (HTTPException 500), w)
  | true, Fetched repo_name [] =>
      index_repository_endpoint encode uuid4 services fetched w
      = (Raise (HTTPException 500), w)
  | true, Fetched repo_name documents =>
      (index_repository_endpoint encode uuid4 services fetched w).1
      = Ok (length documents)
      /\ exists pts,
           length pts = length documents
           /\ trace (index_repository_endpoint encode uuid4 services fetched w).2
              = (trace w ++ [EvDelete (repo_filter repo_name);
                             EvEncodeBatch (map doc_content documents);
                             EvUpsert pts])%list
  end.
Proof.
  destruct services; [|done].
  destruct fetched as [[]|repo_name [|d ds]]; [done..|].
  rewrite index_repository_endpoint_fetched.
  rewrite index_repository_run, index_documents_run, delete_repo_run; [|done..].
  split; [done|]. eexists. split; [apply new_points_length|].
  cbn [snd trace uuid_calls]. by rewrite <- app_assoc.
Qed.

(** ** What [get_indexed_repos] lists *)

Lemma py_eqb_sym a b :
  hashable a = true -> hashable b = true -> py_eqb a b = py_eqb b a.
Proof.
  destruct a as [|x|x|x|x], b as [|y|y|y|y]; simpl; try done; intros _ _.
  - by destruct x, y.
  - apply Z.eqb_sym.
  - apply Z.eqb_sym.
  - apply Z.eqb_sym.
  - apply String.eqb_sym.
Qed.

Lemma distinct_names_snoc repos v :
  Forall (fun x => hashable x = true) repos -> hashable v = true ->
  distinct_names repos -> existsb (py_eqb v) repos = false ->
  distinct_names (repos ++ [v]).
Proof.
  intros Hhash Hv Hdist Hnew.
  assert (forall a, In a repos -> py_eqb v a = false /\ py_eqb a v = false) as Hfresh.
  { intros a Ha.
    assert (py_eqb v a = false) as Hva.
    { destruct (py_eqb v a) eqn:E; [|done].
      assert (existsb (py_eqb v) repos = true) as Hex
        by (apply existsb_exists; eauto).
      congruence. }
    split; [done|]. rewrite py_eqb_sym; [done | | done].
    rewrite List.Forall_forall in Hhash. by apply Hhash. }
  intros i j a b Hij Ha Hb.
  apply lookup_app_Some in Ha as [Ha|[Hi Ha]];
    apply lookup_app_Some in Hb as [Hb|[Hj Hb]].
  - by apply (Hdist i j).
  - apply list_lookup_singleton_Some in Hb as [_ <-].
    apply Hfresh, list_elem_of_In. by eapply list_elem_of_lookup_2.
  - apply list_lookup_singleton_Some in Ha as [_ <-].
    apply Hfresh, list_elem_of_In. by eapply list_elem_of_lookup_2.
  - apply list_lookup_singleton_Some in Ha as [Hi0 _].
    apply list_lookup_singleton_Some in Hb as [Hj0 _]. lia.
Qed.

Lemma collect_repos_distinct records repos w out w' :
  collect_repos records repos w = (Ok out, w') ->
  Forall (fun x => hashable x = true) repos -> distinct_names repos ->
  Forall (fun x => hashable x = true) out /\ distinct_names out.
Proof.
  revert repos w. induction records as [|point rest IH]; intros repos w; simpl.
  - unfold ret. by intros [= <- _].
  - destruct (point.2 !! "repo_name") as [v|]; [|apply IH].
    destruct (negb (bool_decide (point.2 = ∅))); [|apply IH].
    unfold bind, set_add. destruct (hashable v) eqn:Hv; [|done]. unfold ret.
    destruct (existsb (py_eqb v) repos) eqn:Hex; [apply IH|].
    intros Hrun Hhash Hdist. eapply IH; [exact Hrun | |].
    + apply Forall_app. split; [done|]. by constructor.
    + by apply distinct_names_snoc.
Qed.

(** X21: whatever the index holds, the names [get_indexed_repos] returns
    are at most 1000, pairwise different, and each is the [repo_name] of a
    stored point. *)
Theorem get_indexed_repos_names w names :
  (get_indexed_repos w).1 = Ok names ->
  (length names <= 1000)%nat
  /\ distinct_names names
  /\ forall x, In x names ->
               exists p, In p (points w) /\ point_payload p !! "repo_name" = Some x.
Proof.
  intros Hrun. split; [|split].
  - destruct (get_indexed_repos w) as [res w'] eqn:E. simpl in Hrun. subst res.
    by eapply get_indexed_repos_bound.
  - revert Hrun. unfold get_indexed_repos, client_scroll, bind, emit, get_points, ret.
    cbn [points]. destruct (collect_repos _ _ _) as [res w'] eqn:E.
    simpl. intros ->. eapply collect_repos_distinct in E as [_ Hd]; [done | constructor |].
    intros i j a b _ Ha. done.
  - by apply get_indexed_repos_origin.
Qed.

Lemma collect_repos_unhashable records repos w l :
  (exists point, In point records /\ point.2 !! "repo_name" = Some (VList l)) ->
  (collect_repos records repos w).1 = Raise TypeError.
Proof.
  revert repos. induction records as [|point rest IH]; intros repos (pt & Hin & Hl).
  - done.
  - simpl. destruct Hin as [->|Hin].
    + rewrite Hl. rewrite bool_decide_eq_false_2.
      * done.
      * intros Hempty. by rewrite Hempty, lookup_empty in Hl.
    + assert (forall repos', (collect_repos rest repos' w).1 = Raise TypeError) as Hrest
        by (intros repos'; apply IH; eauto).
      destruct (point.2 !! "repo_name") as [v|]; [|apply Hrest].
      destruct (negb (bool_decide (point.2 = ∅))); [|apply Hrest].
      unfold bind, set_add. destruct (hashable v) eqn:Hv.
      * unfold ret. specialize (Hrest (if existsb (py_eqb v) repos then repos
                                        else (repos ++ [v])%list)).
        by destruct (collect_repos rest _ w) as [[?|?] ?].
      * destruct v; done.
Qed.

(** X22: one stored point whose [repo_name] is a list, among the first
    1000, makes [get_indexed_repos] raise [TypeError] instead of listing the
    repositories: a list cannot be added to a set. *)
Theorem get_indexed_repos_unhashable w p l :
  In p (firstn 1000 (points w)) ->
  point_payload p !! "repo_name" = Some (VList l) ->
  (get_indexed_repos w).1 = Raise TypeError.
Proof.
  intros Hp Hl. unfold get_indexed_repos, client_scroll, bind, emit, get_points, ret.
  cbn [points].
  pose proof (collect_repos_unhashable
                (map (fun p => (point_id p,
                                restrict_payload ["repo_name"] (point_payload p)))
                     (firstn 1000 (points w))) []
                {| points := points w; uuid_calls := uuid_calls w;
                   trace := (trace w ++ [EvScroll 1000 ["repo_name"]])%list |} l) as Hraise.
  destruct (collect_repos _ _ _) as [res w'] eqn:E. simpl in *. rewrite Hraise; [done|].
  eexists. split; [apply in_map_iff; eexists; split; [reflexivity | exact Hp]|].
  simpl. by rewrite restrict_payload_lookup.
Qed.

(** ** Indexing twice *)

(** X23: [index_documents] does not look for what is already stored.
    With identifiers that are never reused, indexing the same documents
    again for the same repository, without [delete_repo] in between,
    stores every one of them a second time: after the points stored
    before come the points of the first call and then those of the second,
    one per document each, with the same payloads and the same vectors.
    When no document has a metadata key named [repo_name], the repository
    itself has two more points per document. *)
Theorem index_documents_twice_doubles r documents w :
  never_reused -> ids_drawn w ->
  exists once again,
    points (index_documents encode uuid4 r documents
              (index_documents encode uuid4 r documents w).2).2
    = (points w ++ once ++ again)%list
    /\ length once = length documents
    /\ length again = length documents
    /\ map point_payload once = map (make_payload r) documents
    /\ map point_payload again = map point_payload once
    /\ map point_vector again = map point_vector once
    /\ (Forall plain_metadata documents ->
        length (repo_points r
                  (index_documents encode uuid4 r documents
                     (index_documents encode uuid4 r documents w).2).2)
        = (length (repo_points r w) + 2 * length documents)%nat).
Proof.
  intros Hinj Hwf.
  pose proof (ids_drawn_index r documents w Hinj Hwf) as Hwf1.
  destruct (index_documents_points r documents w Hinj Hwf) as [Hps1 Hn1].
  destruct (index_documents_points r documents _ Hinj Hwf1) as [Hps2 _].
  rewrite Hps1, <- app_assoc in Hps2.
  exists (new_points r (uuid_calls w) documents),
         (new_points r (uuid_calls (index_documents encode uuid4 r documents w).2)
                     documents).
  split; [exact Hps2|]. rewrite !new_points_length, !new_points_payloads,
                          !new_points_vectors.
  do 5 (split; [reflexivity|]). intros Hplain.
  assert (forall n, List.filter (selected (Some (repo_filter r)))
                                (new_points r n documents)
                    = new_points r n documents) as Hall.
  { intros n. apply filter_all. intros p. by apply new_points_selected. }
  unfold repo_points. rewrite Hps2, !List.filter_app, !length_app.
  rewrite !Hall, !new_points_length. lia.
Qed.

(** ** The namespace in [search_with_context] and [search_for_files] *)

Lemma search_results_from_repo r query top_k doc_type use_hyde w x :
  r ≠ "" ->
  In x (map result_of_hit
          (hits_of (encode (search_text_of query use_hyde))
                   (search_filter_of (Some r) doc_type) top_k (points w))) ->
  exists p, In p (points w)
            /\ point_payload p !! "repo_name" = Some (VStr r)
            /\ content x = default (VStr "") (point_payload p !! "content")
            /\ metadata x = filter (fun kv => kv.1 ∉ reserved_keys) (point_payload p).
Proof.
  intros Hr (h & <- & Hin)%in_map_iff.
  apply hits_of_origin in Hin as (p & Hp & Hsel & ->).
  exists p. split; [done|]. split; [by eapply search_filter_of_repo | done].
Qed.

(** X24: with a non-empty [repo_name], everything [search_with_context]
    and [search_for_files] return, the appended parent included, shows the
    content and metadata of a stored point of that repository. *)
Theorem context_and_files_stay_in_repo r query top_k w :
  r ≠ "" ->
  forall out,
    (search_with_context encode similarity groq self query r top_k w).1 = Ok out
    \/ (search_for_files encode similarity groq self query r w).1 = Ok out ->
    forall x, In x out ->
      exists p, In p (points w)
                /\ point_payload p !! "repo_name" = Some (VStr r)
                /\ content x = default (VStr "") (point_payload p !! "content")
                /\ metadata x = filter (fun kv => kv.1 ∉ reserved_keys) (point_payload p).
Proof.
  intros Hr out [Hrun|Hrun] x Hx.
  - rewrite search_with_context_run in Hrun. injection Hrun as <-.
    assert (In x (section_results_of query r top_k w)
            \/ exists parent, In parent (full_readme_of r w) /\ x = mark_parent parent)
      as [Hsec|(parent & Hpar & ->)].
    { destruct (existsb is_readme _); [|by left].
      destruct (full_readme_of r w) as [|parent rest] eqn:F; [by left|].
      apply in_app_iff in Hx as [Hx|[<-|[]]]; [by left|].
      right. exists parent. split; [by left | done]. }
    + by eapply search_results_from_repo.
    + unfold full_readme_of in Hpar.
      change "full readme overview"
        with (search_text_of "full readme overview" false) in Hpar.
      by eapply search_results_from_repo in Hpar.
  - unfold search_for_files, bind in Hrun. rewrite search_run in Hrun.
    destruct (map result_of_hit _) as [|y rest] eqn:E.
    + rewrite search_run in Hrun. injection Hrun as <-.
      by eapply search_results_from_repo.
    + injection Hrun as <-. rewrite <- E in Hx.
      by eapply search_results_from_repo.
Qed.

(** ** Looking up an issue *)





(** X26: while the index holds at most 1000 points, and every stored
    [repo_name] is hashable, [get_indexed_repos] returns normally and
    misses no repository: the name of every stored point is in the list. *)
Theorem get_indexed_repos_complete w :
  (length (points w) <= 1000)%nat ->
  Forall (fun v => hashable v = true) (stored_names (points w)) ->
  exists names,
    (get_indexed_repos w).1 = Ok names
    /\ forall p v, In p (points w) -> point_payload p !! "repo_name" = Some v ->
                   existsb (py_eqb v) names = true.
Proof.
  intros Hlen Hhash. exists (fold_left add_name (stored_names (points w)) []).
  split.
  - unfold get_indexed_repos, client_scroll, bind, emit, get_points, ret.
    cbn [points]. rewrite firstn_all2; [|done].
    fold (scroll_records (points w)). by rewrite collect_repos_run.
  - intros p v Hp Hv. apply fold_add_name_covers.
    + apply stored_names_In. eauto.
    + rewrite List.Forall_forall in Hhash. apply Hhash, stored_names_In. eauto.
Qed.

End EngineFacts.




Import Scenario.

(** ** Closed instances *)

(** C5: [search_with_context] returns the results of the section search as
    they are (none of them marked), followed by at most one document; that
    document is of type [readme_full] and marked [is_parent], and it is
    appended only when a section result has type [readme].  The list can
    be longer than [top_k]: one indexed section and its full README give two
    results for [top_k = 1]. *)
Theorem search_with_context_additive :
  (forall encode similarity groq self query repo_name top_k w,
     exists sec out,
       (search encode similarity groq self query (Some repo_name) top_k None true w).1
       = Ok sec
       /\ (search_with_context encode similarity groq self query repo_name top_k w).1
          = Ok out
       /\ Forall (fun r => is_parent r = None) sec
       /\ (length sec <= top_k)%nat
       /\ (out = sec
           \/ exists parent,
                out = (sec ++ [parent])%list
                /\ existsb is_readme sec = true
                /\ type parent = VStr "readme_full"
                /\ is_parent parent = Some true))
  /\ (exists out,
        (search_with_context embedder dot generator_down engine
           "how do I install this" "x/y" 1 setup_world).1 = Ok out
        /\ (1 < length out)%nat).
Proof.
  split.
  - intros encode similarity groq self query repo_name top_k w.
    destruct (search_with_context_shape encode similarity groq self
                query repo_name top_k w) as (out & Hrun & Hshape).
    exists (section_results_of encode similarity groq self query repo_name top_k w), out.
    split; [apply section_results_search|]. split; [done|]. split.
    { apply List.Forall_forall. intros r Hr. by eapply section_results_plain. }
    split.
    { unfold section_results_of. rewrite length_map. apply hits_of_length. }
    destruct Hshape as [->|(parent & -> & Hany & Hty & _ & Hflag)]; [by left|].
    right. by exists parent.
  - eexists. split; [vm_compute; reflexivity|]. simpl. lia.
Qed.

(** C1 fails as stated: a readme section that scores 0 against the query is
    returned together with the parent, whose score 1/2 is above it. *)
Lemma parent_score_counterexample :
  exists sec r parent,
    (search embedder dot generator_down engine
       "what is the license of this project" (Some "x/y") 3 None true license_world).1
    = Ok sec
    /\ (search_with_context embedder dot generator_down engine
          "what is the license of this project" "x/y" 3 license_world).1
       = Ok (sec ++ [parent])%list
    /\ In r sec /\ is_readme r = true
    /\ (score r < score parent)%Q.
Proof.
  eexists _, _, _. split; [vm_compute; reflexivity|].
  split; [vm_compute; reflexivity|].
  split; [right; left; reflexivity|].
  split; vm_compute; reflexivity.
Qed.

Lemma parent_score_fixed_witness :
  (search embedder dot generator_down engine
     "how do I install this" (Some "x/y") 1 None true setup_world).1 = Ok setup_sec
  /\ setup_out = (setup_sec ++ [setup_parent])%list
  /\ score setup_parent = 1 # 2
  /\ forall r, In r setup_sec -> is_readme r = true -> (score setup_parent < score r)%Q.
Proof.
  split; [vm_compute; reflexivity|]. split; [vm_compute; reflexivity|].
  destruct (parent_score_fixed embedder dot generator_down engine
              "how do I install this" "x/y" 1 setup_world
              setup_sec setup_out setup_parent) as [Hscore Hbelow];
    [vm_compute; reflexivity ..|].
  split; [exact Hscore|]. apply Hbelow.
  intros r Hr _. vm_compute in Hr. destruct Hr as [<-|[]]. vm_compute. reflexivity.
Defined.

(** C2 fails as stated: a document indexed under [x/y] whose metadata has
    a key [repo_name] is returned by a search scoped to [other/repo], a name
    under which nothing was indexed, and not by a search scoped to
    [x/y]. *)
Lemma repo_isolation_counterexample :
  (index_documents embedder uuid_of "x/y" [misfiled] empty_world).1 = Ok 1%nat
  /\ map content
       (results_of (search embedder dot generator_down engine "how do I install this"
                      (Some "other/repo") 5 None false (indexed [misfiled])).1)
     = [VStr "Install via npm install"]
  /\ (search embedder dot generator_down engine "how do I install this" (Some "x/y") 5
        None false (indexed [misfiled])).1 = Ok [].
Proof. repeat split; vm_compute; reflexivity. Qed.

Lemma search_repo_isolation_witness :
  length (repo_points "x/y" Fixtures.two_repos_world) = 2%nat
  /\ length (repo_points "other/repo" Fixtures.two_repos_world) = 1%nat
  /\ length (results_of (search embedder dot generator_down engine
                           "how do I install this" (Some "x/y") 5 None false
                           Fixtures.two_repos_world).1) = 2%nat
  /\ exists added_a added_b hits,
       points Fixtures.two_repos_world = (points empty_world ++ added_a ++ added_b)%list
       /\ map point_payload added_a
          = map (make_payload "x/y") [setup_section; full_readme]
       /\ map point_payload added_b
          = map (make_payload "other/repo") [Fixtures.issue_12]
       /\ (search embedder dot generator_down engine "how do I install this"
             (Some "x/y") 5 None false Fixtures.two_repos_world).1
          = Ok (map result_of_hit hits)
       /\ (forall h, In h hits ->
             hit_payload h !! "repo_name" = Some (VStr "x/y")
             /\ exists p, In p (points empty_world ++ added_a ++ added_b)%list
                          /\ hit_id h = point_id p
                          /\ hit_payload h = point_payload p)
       /\ ("x/y" ≠ "x/y" ->
           forall p v, In p added_a -> ~ In (score_point dot v p) hits)
       /\ ("other/repo" ≠ "x/y" ->
           forall p v, In p added_b -> ~ In (score_point dot v p) hits).
Proof.
  do 3 (split; [vm_compute; reflexivity|]).
  apply (search_repo_isolation embedder dot generator_down uuid_of engine
           "x/y" "x/y" "other/repo" [setup_section; full_readme] [Fixtures.issue_12]
           "how do I install this" 5 None false empty_world).
  - discriminate.
  - intros i j. apply Nat2N.inj.
  - intros p [].
  - repeat constructor.
  - repeat constructor.
Defined.

Lemma search_hyde_fallback_witness :
  generator_fails generator_down engine "how do I install this package" = true
  /\ (search embedder dot generator_down engine "how do I install this package"
        (Some "x/y") 5 None true setup_world).1
     = (search embedder dot generator_down engine "how do I install this package"
          (Some "x/y") 5 None false setup_world).1.
Proof.
  split; [reflexivity|].
  apply (search_hyde_fallback embedder dot generator_down engine
           "how do I install this package" (Some "x/y") 5 None setup_world).
  reflexivity.
Defined.

(** C4 fails as stated: a document whose metadata has a key [repo_name] is
    stored under that other name, so after the re-index nothing at all can
    be retrieved under the repository it was indexed for. *)
Lemma reindex_counterexample :
  (reindexed [misfiled]).1 = Ok 1%nat
  /\ repo_points "x/y" (reindexed [misfiled]).2 = []
  /\ (search embedder dot generator_down engine "how do I install this" (Some "x/y") 5
        None false (reindexed [misfiled]).2).1 = Ok []
  /\ length (repo_points "other/repo" (reindexed [misfiled]).2) = 1%nat.
Proof. repeat split; vm_compute; reflexivity. Qed.

Lemma uuid_of_never_reused : never_reused uuid_of.
Proof. intros i j. apply Nat2N.inj. Qed.

Lemma reindex_replaces_witness :
  never_reused uuid_of
  /\ ids_drawn uuid_of empty_world
  /\ Forall plain_metadata [setup_section]
  /\ (reindexed [setup_section]).1 = Ok 1%nat
  /\ map point_payload (repo_points "x/y" (reindexed [setup_section]).2)
     = [make_payload "x/y" setup_section].
Proof.
  assert (Forall plain_metadata [setup_section]) as Hplain.
  { repeat constructor. }
  split; [exact uuid_of_never_reused|]. split; [apply ids_drawn_empty|].
  split; [exact Hplain|].
  destruct (reindex_replaces embedder dot generator_down uuid_of engine "x/y"
              [license_section; full_readme] [setup_section] empty_world
              uuid_of_never_reused (ids_drawn_empty uuid_of)) as (Hok & _ & Hpay & _);
    [discriminate | exact Hplain |].
  split; [exact Hok | exact Hpay].
Defined.

(** C9 fails on the code: with 1001 repositories indexed, one document
    each, [get_indexed_repos] returns 1000 names and leaves out a
    repository whose document is stored and can be searched. *)
Theorem get_indexed_repos_misses_repository :
  length (repo_points (repo_label 1000) (many_repos 1001)) = 1%nat
  /\ exists names,
       (get_indexed_repos (many_repos 1001)).1 = Ok names
       /\ length names = 1000%nat
       /\ existsb (py_eqb (VStr (repo_label 1000))) names = false.
Proof.
  split; [vm_compute; reflexivity|].
  eexists. split; [vm_compute; reflexivity|].
  split; vm_compute; reflexivity.
Qed.

(** * Properties of the document source *)

(** ** Strings *)

Lemma split_lines_nonempty s : split_lines s ≠ [].
Proof.
  destruct s as [|c r]; simpl; [done|].
  destruct (Ascii.eqb c newline); [done|]. by destruct (split_lines r).
Qed.

Lemma join_lines_first_char c line rest :
  join_lines (String c line :: rest) = String c (join_lines (line :: rest)).
Proof. by destruct rest. Qed.

Lemma join_split_lines s : join_lines (split_lines s) = s.
Proof.
  induction s as [|c r IH]; [done|]. simpl.
  pose proof (split_lines_nonempty r) as Hne.
  destruct (split_lines r) as [|line rest] eqn:E; [done|].
  destruct (Ascii.eqb_spec c newline) as [->|Hc].
  - change (join_lines ("" :: line :: rest))
      with ("" +:+ String newline (join_lines (line :: rest))).
    by rewrite IH.
  - by rewrite join_lines_first_char, IH.
Qed.

Lemma split_lines_no_newline s line :
  In line (split_lines s) -> no_newline line = true.
Proof.
  revert line. induction s as [|c r IH]; intros line; simpl.
  - by intros [<-|[]].
  - destruct (Ascii.eqb c newline) eqn:Ec.
    + intros [<-|Hin]; [done | by apply IH].
    + pose proof (split_lines_nonempty r) as Hne.
      destruct (split_lines r) as [|l rest] eqn:E; [done|].
      intros [<-|Hin].
      * simpl. rewrite Ec. simpl. apply IH. by left.
      * apply IH. by right.
Qed.

(** ** The chunker tiles the README *)

Lemma covers_snoc first sections next section :
  covers first sections next ->
  sec_line_start section = next ->
  (next <= sec_line_end section)%nat ->
  covers first (sections ++ [section]) (S (sec_line_end section)).
Proof.
  induction 1 as [first|first s rest next Hs Hle Hc IH]; intros Hstart Hend; simpl.
  - constructor; [done | done | constructor].
  - constructor; [done | done | by apply IH].
Qed.

(** What the loop keeps true: the saved sections tile the lines before the
    current section, which is empty only before the first line. *)
Definition chunk_invariant (i : nat) (sections : list ReadmeSection)
    (cur : CurrentSection) : Prop :=
  covers 1 sections (cur_line_start cur)
  /\ match cur_lines cur with
     | [] => cur_line_start cur = i
     | _ => (cur_line_start cur < i)%nat
     end.

Lemma chunk_loop_current lines i sections cur sections' cur' :
  chunk_loop lines i sections cur = (sections', cur') ->
  cur_lines cur ≠ [] \/ lines ≠ [] -> cur_lines cur' ≠ [].
Proof.
  revert i sections cur. induction lines as [|line rest IH]; intros i sections cur.
  - simpl. intros [= <- <-] [Hne|Hne]; done.
  - cbn [chunk_loop]. destruct (header_match line) as [[level group2]|];
      intros Hrun _; apply IH in Hrun; [done | by left | done | left].
    simpl. by destruct (cur_lines cur).
Qed.

Lemma chunk_loop_invariant lines i sections cur sections' cur' :
  chunk_loop lines i sections cur = (sections', cur') ->
  chunk_invariant i sections cur ->
  chunk_invariant (i + length lines) sections' cur'.
Proof.
  revert i sections cur. induction lines as [|line rest IH]; intros i sections cur.
  - simpl. intros [= <- <-] Hinv. by rewrite Nat.add_0_r.
  - replace (i + length (line :: rest))%nat with (S i + length rest)%nat
      by (simpl; lia).
    cbn [chunk_loop]. destruct (header_match line) as [[level group2]|].
    + intros Hrun [Hcov Hcur]. apply IH in Hrun; [done|].
      split; [|simpl; lia]. cbn [cur_line_start].
      unfold save_section. destruct (cur_lines cur) as [|l ls] eqn:E.
      * by rewrite <- Hcur.
      * pose proof (covers_snoc 1 sections (cur_line_start cur)
                      (close_section cur (i - 1)) Hcov eq_refl) as Hsnoc.
        cbn [close_section sec_line_end] in Hsnoc.
        replace (S (i - 1)) with i in Hsnoc by lia. apply Hsnoc. lia.
    + intros Hrun [Hcov Hcur]. apply IH in Hrun; [done|].
      split; [done|]. cbn [cur_lines cur_line_start].
      destruct (cur_lines cur) as [|l ls]; simpl; lia.
Qed.

(** X14: the sections [_chunk_readme_by_sections] returns tile the README:
    there is at least one, the first starts at line 1, each next one starts
    on the line after the one before it ended, none is empty, and the last
    ends on the last line. *)
Theorem chunk_readme_tiles content :
  _chunk_readme_by_sections content ≠ []
  /\ covers 1 (_chunk_readme_by_sections content)
              (S (length (split_lines content))).
Proof.
  unfold _chunk_readme_by_sections.
  destruct (chunk_loop (split_lines content) 1 [] _) as [sections cur] eqn:E.
  pose proof (chunk_loop_current _ _ _ _ _ _ E
                (or_intror (split_lines_nonempty content))) as Hcur.
  apply chunk_loop_invariant in E as [Hcov Hlt]; [|split; [constructor | done]].
  unfold save_section. destruct (cur_lines cur) as [|l ls] eqn:El; [done|].
  split; [by destruct sections|].
  pose proof (covers_snoc 1 sections (cur_line_start cur)
                (close_section cur (length (split_lines content))) Hcov eq_refl)
    as Hsnoc.
  cbn [close_section sec_line_end] in Hsnoc. apply Hsnoc. simpl in Hlt. lia.
Qed.

(** ** Levels and titles *)

Lemma hashes_then_level h line level group2 :
  hashes_then h line = Some (level, group2) -> (1 <= level <= h)%nat.
Proof.
  induction h as [|h IH]; simpl; [done|].
  destruct (space_plus _ _).
  - intros [= <- _]. lia.
  - intros Hrec%IH. lia.
Qed.

Lemma header_match_level line level group2 :
  header_match line = Some (level, group2) -> (1 <= level <= 6)%nat.
Proof. unfold header_match. intros Hm%hashes_then_level. lia. Qed.

(** The levels of the saved sections followed by that of the current one:
    none is above 6 and only the first can be 0, in which case the title is
    still the initial one. *)
Definition levels_invariant (sections : list ReadmeSection) (cur : CurrentSection)
    : Prop :=
  Forall (fun s => (sec_level s <= 6)%nat
                   /\ (sec_level s = 0%nat -> sec_title s = "Introduction")) sections
  /\ Forall (fun s => (1 <= sec_level s)%nat) (tail sections)
  /\ (cur_level cur <= 6)%nat
  /\ (cur_level cur = 0%nat -> cur_title cur = "Introduction")
  /\ (sections ≠ [] -> (1 <= cur_level cur)%nat).

Lemma chunk_loop_levels lines i sections cur sections' cur' :
  chunk_loop lines i sections cur = (sections', cur') ->
  levels_invariant sections cur -> levels_invariant sections' cur'.
Proof.
  revert i sections cur. induction lines as [|line rest IH]; intros i sections cur.
  - simpl. by intros [= <- <-].
  - cbn [chunk_loop]. destruct (header_match line) as [[level group2]|] eqn:Eh.
    + apply header_match_level in Eh.
      intros Hrun (Hall & Htail & Hle & Hzero & Hpos). apply IH in Hrun; [done|].
      unfold levels_invariant, save_section. cbn [cur_level cur_title].
      destruct (cur_lines cur) as [|l ls].
      * repeat split; try done; lia.
      * repeat split; try lia.
        -- apply Forall_app. split; [done|].
           constructor; [split; [exact Hle | exact Hzero] | constructor].
        -- destruct sections as [|s ss]; simpl; [constructor|].
           apply Forall_app. split; [done|]. constructor; [|constructor].
           simpl. by apply Hpos.
    + intros Hrun Hinv. apply IH in Hrun; done.
Qed.

(** X15: every section has a level between 0 and 6, and level 0 belongs
    to the first section alone, the text before the first header, which is
    then titled "Introduction". *)
Theorem chunk_readme_levels content :
  Forall (fun s => (sec_level s <= 6)%nat) (_chunk_readme_by_sections content)
  /\ forall i s, _chunk_readme_by_sections content !! i = Some s ->
                 sec_level s = 0%nat -> i = 0%nat /\ sec_title s = "Introduction".
Proof.
  unfold _chunk_readme_by_sections.
  destruct (chunk_loop (split_lines content) 1 [] _) as [sections cur] eqn:E.
  apply chunk_loop_levels in E as (Hall & Htail & Hle & Hzero & Hpos).
  2: { repeat split; try done; try constructor. simpl. lia. }
  assert (Forall (fun s => (sec_level s <= 6)%nat
                           /\ (sec_level s = 0%nat -> sec_title s = "Introduction"))
                 (save_section sections cur (length (split_lines content)))
          /\ Forall (fun s => (1 <= sec_level s)%nat)
                    (tail (save_section sections cur (length (split_lines content)))))
    as [Hall' Htail'].
  { unfold save_section. destruct (cur_lines cur) as [|l ls]; [done|]. split.
    - apply Forall_app. split; [done|].
      constructor; [split; [exact Hle | exact Hzero] | constructor].
    - destruct sections as [|s ss]; simpl; [constructor|].
      apply Forall_app. split; [done|]. constructor; [|constructor].
      simpl. by apply Hpos. }
  split.
  - eapply Forall_impl; [exact Hall'|]. by intros s0 [Hs _].
  - intros i s Hi Hlevel.
    destruct (save_section sections cur _) as [|s0 rest]; [done|].
    destruct i as [|i]; simpl in Hi.
    + injection Hi as ->. split; [done|].
      apply Forall_cons in Hall' as [[_ Ht] _]. by apply Ht.
    + simpl in Htail'. rewrite List.Forall_forall in Htail'.
      apply list_elem_of_lookup_2, list_elem_of_In, Htail' in Hi. lia.
Qed.

(** ** A README without headers *)

Lemma chunk_loop_no_headers lines i sections cur :
  Forall (fun line => header_match line = None) lines ->
  chunk_loop lines i sections cur
  = (sections,
     {| cur_title := cur_title cur; cur_level := cur_level cur;
        cur_lines := (cur_lines cur ++ lines)%list;
        cur_line_start := cur_line_start cur |}).
Proof.
  revert i cur. induction lines as [|line rest IH]; intros i cur Hnone.
  - simpl. rewrite app_nil_r. by destruct cur.
  - apply Forall_cons in Hnone as [Hline Hrest]. cbn [chunk_loop].
    rewrite Hline, IH; [|done]. simpl. by rewrite <- app_assoc.
Qed.

(** X16: a README none of whose lines is a header gives one section,
    titled "Introduction" at level 0, which spans all the lines and whose
    content is the whole text, stripped. *)
Theorem chunk_readme_no_headers content :
  Forall (fun line => header_match line = None) (split_lines content) ->
  _chunk_readme_by_sections content
  = [ {| sec_title := "Introduction"; sec_level := 0;
         sec_content := strip content;
         sec_line_start := 1;
         sec_line_end := length (split_lines content) |} ].
Proof.
  intros Hnone. unfold _chunk_readme_by_sections.
  rewrite chunk_loop_no_headers; [|done]. cbn [app].
  unfold save_section. cbn [cur_lines].
  pose proof (split_lines_nonempty content) as Hne.
  destruct (split_lines content) as [|l ls] eqn:E; [done|].
  unfold close_section. cbn [cur_title cur_level cur_lines cur_line_start app].
  by rewrite <- E, join_split_lines.
Qed.

(** ** Which lines are headers *)

Lemma str_drop_nil n : str_drop n "" = "".
Proof. by destruct n. Qed.

Lemma str_drop_length s : str_drop (String.length s) s = "".
Proof. induction s as [|c r IH]; [done | exact IH]. Qed.

Lemma str_take_length s : str_take (String.length s) s = s.
Proof. induction s as [|c r IH]; [done|]. simpl. by rewrite IH. Qed.

Lemma str_take_bound n s : (String.length (str_take n s) <= n)%nat.
Proof.
  revert s. induction n as [|n IH]; intros [|c r]; simpl; try lia.
  specialize (IH r). lia.
Qed.

Lemma no_newline_drop n s : no_newline s = true -> no_newline (str_drop n s) = true.
Proof.
  revert s. induction n as [|n IH]; intros [|c r]; simpl; try done.
  intros [_ Hr]%andb_true_iff. by apply IH.
Qed.

Lemma leading_no_newline s :
  no_newline s = true ->
  leading (fun c => negb (Ascii.eqb c newline)) s = String.length s.
Proof.
  induction s as [|c r IH]; simpl; [done|].
  intros [-> Hr]%andb_true_iff. by rewrite IH.
Qed.

(** On a line, [(.+)$] takes everything that is left, if anything is. *)
Lemma dot_plus_end_line s :
  no_newline s = true ->
  dot_plus_end s = match s with EmptyString => None | _ => Some s end.
Proof.
  intros Hs. unfold dot_plus_end. rewrite leading_no_newline; [|done].
  destruct s as [|c r]; [done|].
  simpl. by rewrite str_drop_length, str_take_length.
Qed.

Lemma leading_le P s : (leading P s <= String.length s)%nat.
Proof. induction s as [|c r IH]; simpl; [lia|]. destruct (P c); simpl; lia. Qed.

Lemma str_drop_leading P s :
  match str_drop (leading P s) s with
  | String c _ => P c = false
  | EmptyString => True
  end.
Proof.
  induction s as [|c r IH]; simpl; [done|].
  destruct (P c) eqn:E; simpl; done.
Qed.

Lemma str_drop_below P s j :
  (j < leading P s)%nat -> exists c r, str_drop j s = String c r /\ P c = true.
Proof.
  revert j. induction s as [|c r IH]; intros j; simpl; [lia|].
  destruct (P c) eqn:E; [|lia]. destruct j as [|j]; simpl.
  - eauto.
  - intros Hj. apply IH. lia.
Qed.

Lemma str_drop_all P s :
  str_drop (leading P s) s = "" -> leading P s = String.length s.
Proof.
  induction s as [|c r IH]; simpl; [done|].
  destruct (P c); simpl; [|done]. intros Hr. by rewrite IH.
Qed.

Lemma str_drop_nonempty j s : (j < String.length s)%nat -> str_drop j s ≠ "".
Proof.
  revert j. induction s as [|c r IH]; intros [|j]; simpl; try lia; try done.
  intros Hj. apply IH. lia.
Qed.

(** [\s+(.+)$] on a line: the longest run of white space is taken when
    something follows it; when the line ends with the run, one of its
    characters is given back to [(.+)]. *)
Lemma space_plus_line s :
  no_newline s = true ->
  space_plus (leading is_space s) s
  = if (leading is_space s =? 0)%nat then None
    else if (String.length s =? leading is_space s)%nat
         then if (leading is_space s =? 1)%nat then None
              else Some (str_drop (leading is_space s - 1) s)
         else Some (str_drop (leading is_space s) s).
Proof.
  intros Hs. pose proof (leading_le is_space s) as Hle.
  destruct (leading is_space s) as [|k] eqn:Ek; [done|].
  cbn [space_plus Nat.eqb]. rewrite dot_plus_end_line; [|by apply no_newline_drop].
  destruct (Nat.eqb_spec (String.length s) (S k)) as [Hlen|Hlen].
  - rewrite <- Hlen at 1. rewrite str_drop_length.
    destruct k as [|k]; [done|]. cbn [space_plus Nat.eqb].
    rewrite dot_plus_end_line; [|by apply no_newline_drop].
    replace (S (S k) - 1)%nat with (S k) by lia.
    pose proof (str_drop_nonempty (S k) s) as Hne.
    destruct (str_drop (S k) s); [|done]. exfalso. apply Hne; [lia | done].
  - pose proof (str_drop_nonempty (S k) s) as Hne.
    destruct (str_drop (S k) s); [|done]. exfalso. apply Hne; [lia | done].
Qed.

Lemma hashes_then_below h line :
  (h < leading (Ascii.eqb hash_sign) line)%nat -> hashes_then h line = None.
Proof.
  induction h as [|h IH]; [done|]. intros Hh. cbn [hashes_then].
  destruct (str_drop_below _ line (S h) Hh) as (c & r & -> & Hc).
  apply Ascii.eqb_eq in Hc as <-. simpl. apply IH. lia.
Qed.

Lemma header_match_line line :
  no_newline line = true ->
  header_match line
  = let h := leading (Ascii.eqb hash_sign) line in
    if ((1 <=? h) && (h <=? 6))%nat
    then option_map (pair h)
                    (space_plus (leading is_space (str_drop h line)) (str_drop h line))
    else None.
Proof.
  intros Hline. unfold header_match. cbv zeta.
  set (h := leading (Ascii.eqb hash_sign) line).
  destruct (Nat.leb_spec 1 h) as [H1|H0]; cbn [andb].
  - destruct (Nat.leb_spec h 6) as [H6|H7].
    + rewrite Nat.min_r; [|done]. destruct h as [|h'] eqn:Eh; [lia|].
      cbn [hashes_then].
      destruct (space_plus _ _) as [g|]; [done|]. cbn [option_map].
      apply hashes_then_below. fold h. lia.
    + rewrite Nat.min_l; [|lia]. apply hashes_then_below. fold h. lia.
  - replace h with 0%nat by lia. done.
Qed.

Lemma lstrip_leading s : lstrip s = str_drop (leading is_space s) s.
Proof.
  induction s as [|c r IH]; [done|]. simpl. by destruct (is_space c).
Qed.

Lemma lstrip_idem s : lstrip (lstrip s) = lstrip s.
Proof.
  induction s as [|c r IH]; [done|]. simpl.
  destruct (is_space c) eqn:E; [done|]. simpl. by rewrite E.
Qed.

Lemma all_space_drop j s :
  leading is_space s = String.length s -> lstrip (str_drop j s) = "".
Proof.
  revert j. induction s as [|c r IH]; intros j; simpl.
  - by rewrite str_drop_nil.
  - destruct (is_space c) eqn:E; [|done]. intros [= Hr].
    destruct j as [|j]; simpl; [|by apply IH].
    rewrite E. by apply (IH 0%nat).
Qed.

(** X17: a line is a header exactly when it starts with one to six hash
    signs followed by a white-space character and at least one more
    character; the level is then the number of hash signs and the title is
    what follows them, stripped.  Seven hash signs, a missing space, or a
    lone space after the hashes make an ordinary line. *)
Theorem header_match_spec line :
  no_newline line = true ->
  (is_Some (header_match line)
   <-> (1 <= leading (Ascii.eqb hash_sign) line <= 6)%nat
       /\ (1 <= leading is_space (str_drop (leading (Ascii.eqb hash_sign) line) line))%nat
       /\ (2 <= String.length (str_drop (leading (Ascii.eqb hash_sign) line) line))%nat)
  /\ forall level group2,
       header_match line = Some (level, group2) ->
       level = leading (Ascii.eqb hash_sign) line
       /\ strip group2 = strip (str_drop level line).
Proof.
  intros Hline. rewrite header_match_line; [|done]. cbv zeta.
  set (h := leading (Ascii.eqb hash_sign) line).
  set (rest := str_drop h line).
  assert (no_newline rest = true) as Hrest by by apply no_newline_drop.
  rewrite space_plus_line; [|done].
  pose proof (leading_le is_space rest) as Hle.
  set (k := leading is_space rest) in *.
  destruct (Nat.leb_spec 1 h) as [H1|H0]; cbn [andb];
    [|split; [split; [by intros [? ?] | lia] | done]].
  destruct (Nat.leb_spec h 6) as [H6|H7];
    [|split; [split; [by intros [? ?] | lia] | done]].
  destruct (Nat.eqb_spec k 0) as [Hk0|Hk0]; cbn [option_map];
    [split; [split; [by intros [? ?] | lia] | done]|].
  destruct (Nat.eqb_spec (String.length rest) k) as [Hall|Hmore].
  - destruct (Nat.eqb_spec k 1) as [Hk1|Hk1]; cbn [option_map].
    + split; [split; [by intros [? ?] | lia] | done].
    + split; [split; [intros _; lia | by eexists]|].
      intros level group2 [= <- <-]. split; [done|]. fold rest.
      unfold strip. rewrite (all_space_drop (k - 1) rest); [|done].
      rewrite (lstrip_leading rest). fold k. by rewrite <- Hall, str_drop_length.
  - split; [split; [intros _; lia | by eexists]|].
    intros level group2 [= <- <-]. split; [done|]. fold rest.
    unfold strip. unfold k. by rewrite <- (lstrip_leading rest), lstrip_idem.
Qed.

(** ** The documents of a README *)

Lemma section_document_reserved_free filename section :
  reserved_free (section_document filename section).
Proof.
  intros key Hin. unfold reserved_keys in Hin.
  repeat (apply elem_of_cons in Hin as [->|Hin]); [done..|].
  by apply elem_of_nil in Hin.
Qed.

Lemma full_document_reserved_free filename content :
  reserved_free (full_document filename content).
Proof.
  intros key Hin. unfold reserved_keys in Hin.
  repeat (apply elem_of_cons in Hin as [->|Hin]); [done..|].
  by apply elem_of_nil in Hin.
Qed.

(** X18: from a README, [fetch_readme] builds readme documents of at
    least 20 characters, at most one per section, followed by exactly one
    [readme_full] document that holds the first 8000 characters; none of
    these documents uses a reserved key in its metadata.  When the GitHub
    client raises, it returns no document. *)
Theorem fetch_readme_documents filename content :
  fetch_readme None = []
  /\ exists sections,
       fetch_readme (Some (filename, content))
       = (sections ++ [full_document filename content])%list
       /\ Forall (fun d => doc_type d = Some "readme"
                           /\ (20 <= String.length (doc_content d))%nat) sections
       /\ (length sections <= length (_chunk_readme_by_sections content))%nat
       /\ doc_type (full_document filename content) = Some "readme_full"
       /\ doc_content (full_document filename content) = str_take 8000 content
       /\ (String.length (doc_content (full_document filename content)) <= 8000)%nat
       /\ Forall reserved_free (fetch_readme (Some (filename, content))).
Proof.
  split; [done|]. unfold fetch_readme. eexists. split; [reflexivity|].
  split.
  { apply List.Forall_forall. intros d (s & <- & Hs)%in_map_iff.
    apply filter_In in Hs as [_ Hlen]. split; [done|].
    apply negb_true_iff, Nat.ltb_ge in Hlen. exact Hlen. }
  split.
  { rewrite length_map. apply List.filter_length_le. }
  split; [done|]. split; [done|]. split; [apply str_take_bound|].
  apply Forall_app. split.
  - apply List.Forall_forall. intros d (s & <- & _)%in_map_iff.
    apply section_document_reserved_free.
  - constructor; [apply full_document_reserved_free | constructor].
Qed.

(** * Instances of the further properties *)

Import Fixtures.

Lemma setup_world_wf : ids_drawn uuid_of setup_world /\ unique_ids setup_world.
Proof.
  split.
  - intros p Hp. vm_compute in Hp.
    destruct Hp as [<-|[<-|[]]]; [exists 0%nat | exists 1%nat];
      (split; [vm_compute; lia | reflexivity]).
  - unfold unique_ids.
    assert (map point_id (points setup_world) = [0%N; 1%N]) as -> by by vm_compute.
    apply NoDup_cons. split; [|apply NoDup_singleton].
    intros Hin. apply list_elem_of_singleton in Hin. discriminate.
Qed.

Lemma search_unindexed_repo_witness :
  (search embedder dot generator_down engine "anything" (Some "nonexistent/repo") 5
     None false setup_world).1 = Ok [].
Proof.
  apply (search_unindexed_repo embedder dot generator_down engine
           "nonexistent/repo" "anything" 5 None false setup_world).
  - discriminate.
  - intros p Hp. vm_compute in Hp. destruct Hp as [<-|[<-|[]]]; by vm_compute.
Defined.

Lemma search_doc_type_filter_witness :
  Forall (fun r => type r = VStr "readme") setup_sec.
Proof.
  apply List.Forall_forall.
  apply (search_doc_type_filter embedder dot generator_down engine
           "how do I install this" (Some "x/y") 1 "readme" true setup_world).
  - discriminate.
  - vm_compute. reflexivity.
Defined.

Lemma search_unscoped_is_global_witness :
  length (results_of (search embedder dot generator_down engine "anything"
                        (Some "") 5 None false setup_world).1)
  = Nat.min 5 (length (points setup_world)).
Proof.
  apply (search_unscoped_is_global embedder dot generator_down engine "anything"
           (Some "") 5 None false setup_world); [reflexivity | reflexivity |].
  vm_compute. reflexivity.
Defined.

Lemma search_hyde_uses_answer_witness :
  (search embedder dot generator_up engine "how do I install this" (Some "x/y") 1
     None true setup_world).1
  = (search embedder dot generator_up engine "Install via npm install" (Some "x/y") 1
       None false setup_world).1.
Proof.
  apply (search_hyde_uses_answer embedder dot generator_up engine "gsk-demo"
           "  Install via npm install  " "how do I install this" (Some "x/y") 1 None
           setup_world); [reflexivity | discriminate | reflexivity | vm_compute; lia].
Defined.

Lemma index_documents_appends_witness :
  exists added,
    (index_documents embedder uuid_of "x/y" [issue_12] setup_world).1 = Ok 1%nat
    /\ points issues_world = (points setup_world ++ added)%list
    /\ map point_vector added = [embedder "Issue #12: crash on start"]
    /\ map point_payload added = [make_payload "x/y" issue_12].
Proof.
  apply (index_documents_appends embedder uuid_of "x/y" [issue_12] setup_world).
  - exact uuid_of_never_reused.
  - apply setup_world_wf.
Defined.

Lemma store_invariants_kept_witness :
  ids_drawn uuid_of issues_world /\ unique_ids issues_world.
Proof.
  apply (store_invariants_kept embedder dot generator_down uuid_of "x/y" [issue_12]
           setup_world uuid_of_never_reused (proj1 setup_world_wf)
           (proj2 setup_world_wf)).
Defined.


Lemma delete_repo_keeps_others_witness :
  length (repo_points "x/y" two_repos_world) = 2%nat
  /\ length (points two_repos_world) = 3%nat
  /\ length (points (delete_repo "x/y" two_repos_world).2) = 1%nat
  /\ repo_points "other/repo" (delete_repo "x/y" two_repos_world).2
     = repo_points "other/repo" two_repos_world
  /\ map point_payload (repo_points "other/repo" (delete_repo "x/y" two_repos_world).2)
     = [make_payload "other/repo" issue_12].
Proof.
  do 3 (split; [vm_compute; reflexivity|]).
  destruct (delete_repo_keeps_others embedder dot generator_down "x/y" "other/repo"
              two_repos_world) as [Hkept _]; [discriminate|].
  split; [exact Hkept|]. rewrite Hkept. vm_compute. reflexivity.
Defined.

Lemma delete_repo_then_gone_witness :
  (search embedder dot generator_down engine "how do I install this" (Some "x/y") 5
     None false (delete_repo "x/y" setup_world).2).1 = Ok [].
Proof.
  apply (delete_repo_then_gone embedder dot generator_down engine "x/y"
           "how do I install this" 5 None false setup_world).
  discriminate.
Defined.

Lemma chunk_readme_no_headers_witness :
  _chunk_readme_by_sections plain_text
  = [ {| sec_title := "Introduction"; sec_level := 0;
         sec_content := strip plain_text; sec_line_start := 1;
         sec_line_end := length (split_lines plain_text) |} ].
Proof.
  apply (chunk_readme_no_headers plain_text). vm_compute. repeat constructor.
Defined.

Lemma header_match_spec_witness :
  no_newline "## Usage notes" = true
  /\ forall level group2,
       header_match "## Usage notes" = Some (level, group2) ->
       level = leading (Ascii.eqb hash_sign) "## Usage notes"
       /\ strip group2 = strip (str_drop level "## Usage notes").
Proof.
  split; [reflexivity|].
  apply (header_match_spec "## Usage notes"). reflexivity.
Defined.

Lemma fetched_readme_has_parent_witness :
  exists sec out,
    (search embedder dot generator_down engine "how do I install this" (Some "x/y") 3
       None true
       (index_documents embedder uuid_of "x/y"
          (fetch_readme (Some ("README.md", readme_text))) empty_world).2).1 = Ok sec
    /\ (search_with_context embedder dot generator_down engine
          "how do I install this" "x/y" 3
          (index_documents embedder uuid_of "x/y"
             (fetch_readme (Some ("README.md", readme_text))) empty_world).2).1 = Ok out
    /\ (existsb is_readme sec = false -> out = sec)
    /\ (existsb is_readme sec = true ->
        exists parent,
          out = (sec ++ [parent])%list
          /\ type parent = VStr "readme_full"
          /\ is_parent parent = Some true).
Proof.
  apply (fetched_readme_has_parent embedder dot generator_down uuid_of engine
           "x/y" "README.md" readme_text "how do I install this" 3 empty_world).
  - exact uuid_of_never_reused.
  - apply ids_drawn_empty.
  - discriminate.
Defined.

Lemma get_indexed_repos_names_witness :
  (length [VStr "x/y"] <= 1000)%nat /\ distinct_names [VStr "x/y"].
Proof.
  destruct (get_indexed_repos_names setup_world [VStr "x/y"]) as (Hlen & Hd & _).
  - vm_compute. reflexivity.
  - by split.
Defined.

Lemma get_indexed_repos_unhashable_witness :
  (get_indexed_repos listed_world).1 = Raise TypeError.
Proof.
  apply (get_indexed_repos_unhashable listed_world listed_point
           [VStr "a/b"; VStr "c/d"]).
  - vm_compute. left. reflexivity.
  - vm_compute. reflexivity.
Defined.

Lemma index_documents_twice_doubles_witness :
  exists once again,
    points (index_documents embedder uuid_of "x/y" [issue_12] issues_world).2
    = (points setup_world ++ once ++ again)%list
    /\ length once = 1%nat /\ length again = 1%nat
    /\ map point_payload once = [make_payload "x/y" issue_12]
    /\ map point_payload again = map point_payload once
    /\ map point_vector again = map point_vector once
    /\ length (repo_points "x/y"
                 (index_documents embedder uuid_of "x/y" [issue_12] issues_world).2)
       = 4%nat.
Proof.
  destruct (index_documents_twice_doubles embedder uuid_of "x/y" [issue_12] setup_world
              uuid_of_never_reused (proj1 setup_world_wf))
    as (once & again & Hps & Hlen1 & Hlen2 & Hpay1 & Hpay2 & Hvec & Hcount).
  exists once, again. do 6 (split; [assumption|]).
  apply Hcount. repeat constructor.
Defined.

Lemma search_for_files_two_tiers_witness :
  length (List.filter
            (selected (Some {| must := [ {| cond_key := "doc_type";
                                            cond_value := "file_tree" |} ] |}))
            (points trees_world)) = 3%nat
  /\ (search_for_files tree_embedder dot generator_down engine "where is the code"
        "x/y" trees_world).1
     = Ok [result_of_hit (score_point dot (tree_embedder "where is the code")
                                      current_tree_point)]
  /\ exists out evs,
       search_for_files tree_embedder dot generator_down engine "where is the code"
         "x/y" trees_world
       = (Ok out, add_trace evs trees_world)
       /\ (length out <= 2)%nat
       /\ generator_calls evs = 0%nat
       /\ ((exists p,
              In p (points trees_world) /\ file_tree_of "x/y" p
              /\ (search tree_embedder dot generator_down engine "where is the code"
                    (Some "x/y") 1 (Some "file_tree") false trees_world).1 = Ok out
              /\ out = [result_of_hit
                          (score_point dot (tree_embedder "where is the code") p)]
              /\ forall q, In q (points trees_world) -> file_tree_of "x/y" q ->
                           (dot (tree_embedder "where is the code") (point_vector q)
                            <= dot (tree_embedder "where is the code")
                                   (point_vector p))%Q)
           \/ ((forall q, In q (points trees_world) -> ~ file_tree_of "x/y" q)
               /\ (search tree_embedder dot generator_down engine
                     ("files directories " +:+ "where is the code")
                     (Some "x/y") 2 None false trees_world).1 = Ok out)).
Proof.
  split; [vm_compute; reflexivity|]. split; [vm_compute; reflexivity|].
  apply (search_for_files_two_tiers tree_embedder dot generator_down engine
           "where is the code" "x/y" trees_world).
  discriminate.
Defined.

Lemma context_and_files_stay_in_repo_witness :
  Forall (fun x =>
            exists p, In p (points setup_world)
                      /\ point_payload p !! "repo_name" = Some (VStr "x/y")
                      /\ content x = default (VStr "") (point_payload p !! "content")
                      /\ metadata x
                         = filter (fun kv => kv.1 ∉ reserved_keys) (point_payload p))
         setup_out.
Proof.
  apply List.Forall_forall.
  apply (context_and_files_stay_in_repo embedder dot generator_down engine "x/y"
           "how do I install this" 1 setup_world); [discriminate|].
  left. vm_compute. reflexivity.
Defined.


Lemma get_indexed_repos_complete_witness :
  exists names,
    (get_indexed_repos setup_world).1 = Ok names
    /\ forall p v, In p (points setup_world) ->
                   point_payload p !! "repo_name" = Some v ->
                   existsb (py_eqb v) names = true.
Proof.
  apply (get_indexed_repos_complete setup_world).
  - vm_compute. lia.
  - vm_compute. repeat constructor.
Defined.
